(** * Yanductor backend of xc: load-or-fallback orchestration and inventory parser

    A shallow embedding of [backend/yanductor/yanductor.go] together with the
    properties its specification states about it.  Go methods with a pointer
    receiver become functions that pass the receiver and the outside world
    explicitly; Go's [error] results become [option error]. *)

From Stdlib Require Import ZArith List String Ascii Bool Lia Permutation.
From Stdlib.Strings Require Import Byte.
From stdpp Require Import base option list gmap strings.

Import ListNotations.
Local Open Scope string_scope.
Local Open Scope Z_scope.

Set Warnings "-register-all".

(** ** Decoded JSON documents ([interface{}] values of encoding/json) *)

Module Json.

(** What [json.Unmarshal] stores in an [interface{}]: nil, bool, float64
    (kept as its 64-bit pattern, the code never inspects one), string,
    [[]interface{}] and [map[string]interface{}].  A map is kept as the list
    of its entries in the order in which a [range] statement visits them; the
    keys of a decoded map are pairwise distinct. *)
Inductive value : Type :=
| Null
| Boolean (b : bool)
| Number (bits : Z)
| Str (s : string)
| Array (xs : list value)
| Object (kv : list (string * value)).

Definition object : Type := list (string * value).

(** [m[k]] on a [map[string]interface{}]: the zero value (nil) when absent. *)
Fixpoint get (k : string) (m : object) : option value :=
  match m with
  | [] => None
  | (k', v) :: m' => if String.eqb k k' then Some v else get k m'
  end.

(** [v.(map[string]interface{})] with the comma-ok form. *)
Definition as_map (v : option value) : option object :=
  match v with
  | Some (Object kv) => Some kv
  | _ => None
  end.

(** [v.([]interface{})] with the comma-ok form. *)
Definition as_slice (v : option value) : option (list value) :=
  match v with
  | Some (Array xs) => Some xs
  | _ => None
  end.

(** [v.(string)] with the comma-ok form. *)
Definition as_string (v : option value) : option string :=
  match v with
  | Some (Str s) => Some s
  | _ => None
  end.

End Json.

(** ** The records of package [store] that the backend fills *)

Module store.

Record Host : Type := mkHost {
  FQDN : string;
  GroupID : string;
  DatacenterID : string }.

(** [Hosts] holds pointers to the same records as the flat host list. *)
Record Group : Type := mkGroup {
  Name : string;
  ParentID : string;
  Hosts : list Host }.

(** Go field [Name] of [store.Datacenter]. *)
Record Datacenter : Type := mkDatacenter {
  DatacenterName : string }.

Record WorkGroup : Type := mkWorkGroup {
  WorkGroupName : string }.

End store.

Import store.

(** ** Errors *)

Inductive Errno : Type := ENOENT | EACCES | ENOTDIR | EIO | ENOSPC | EROFS.

(** Go [error] values: a path error of package os around an errno, an error
    made by a library (encoding/json, net/http, io), and [fmt.Errorf] with its
    format string and arguments. *)
Inductive error : Type :=
| PathError (op path : string) (errno : Errno)
| LibError (pkg msg : string)
| Errorf (format : string) (args : list fmtarg)
with fmtarg : Type :=
| ArgString (s : string)
| ArgInt (n : Z)
| ArgError (e : error).

(** [os.IsNotExist]. *)
Definition os_IsNotExist (err : error) : bool :=
  match err with
  | PathError _ _ ENOENT => true
  | _ => false
  end.

(** ** The Go library functions the backend calls

    Their sources are not part of the repository; each is written after the
    behaviour its documentation gives, on byte strings. *)

(** [strings.Join(elems, sep)]. *)
Definition strings_Join (elems : list string) (sep : string) : string :=
  String.concat sep elems.

(** The class [\s] of Go's regular expressions: tab, newline, form feed,
    carriage return and space. *)
Definition isSpace (c : ascii) : bool :=
  existsb (Ascii.eqb c) ["009"; "010"; "012"; "013"; " "]%char.

(** The scan behind [regexp.MustCompile(`\s*,\s*`).Split(s, -1)]: every
    match holds exactly one comma with all the white space around it; [field]
    is the piece read so far, [pending] the white space after it that belongs
    to the piece unless a comma follows, [afterSep] says that the white space
    after a comma is being consumed. *)
Fixpoint splitCommas (cs : list ascii) (field pending : list ascii) (afterSep : bool)
  : list string :=
  match cs with
  | [] => [string_of_list_ascii (field ++ pending)]
  | c :: cs' =>
      if Ascii.eqb c "," then string_of_list_ascii field :: splitCommas cs' [] [] true
      else if isSpace c then
        if afterSep then splitCommas cs' [] [] true
        else splitCommas cs' field (pending ++ [c]) false
      else splitCommas cs' (field ++ pending ++ [c]) [] false
  end.

Definition splitExpr_Split (s : string) : list string :=
  splitCommas (list_ascii_of_string s) [] [] false.

(** The elements of a slash-separated path, empty ones included. *)
Fixpoint pathElements (p : string) : list string :=
  match p with
  | EmptyString => [""]
  | String c p' =>
      if Ascii.eqb c "/" then "" :: pathElements p'
      else match pathElements p' with
           | [] => [String c ""]
           | e :: es => String c e :: es
           end
  end.

Definition isRooted (p : string) : bool :=
  match p with
  | String c _ => Ascii.eqb c "/"
  | EmptyString => false
  end.

(** One element of [path.Clean]'s scan; [kept] is the output so far, last
    element first.  Empty elements and "." are dropped, ".." removes the
    element before it, is dropped at the root, and is kept in front of a
    relative path. *)
Definition cleanStep (rooted : bool) (kept : list string) (e : string) : list string :=
  if String.eqb e "" || String.eqb e "." then kept
  else if String.eqb e ".." then
    match kept with
    | top :: below => if String.eqb top ".." then e :: kept else below
    | [] => if rooted then kept else [e]
    end
  else e :: kept.

(** [path.Clean]. *)
Definition path_Clean (p : string) : string :=
  let rooted := isRooted p in
  let kept := List.rev (fold_left (cleanStep rooted) (pathElements p) []) in
  if rooted then "/" ++ String.concat "/" kept
  else match kept with
       | [] => "."
       | _ => String.concat "/" kept
       end.

(** The buffer [path.Join] builds: leading empty elements are skipped, every
    later one follows a slash. *)
Fixpoint joinBuf (buf : string) (elem : list string) : string :=
  match elem with
  | [] => buf
  | e :: rest =>
      if String.eqb buf "" then
        if String.eqb e "" then joinBuf buf rest else joinBuf e rest
      else joinBuf (buf ++ "/" ++ e) rest
  end.

(** [path.Join]: the empty string when every element is empty. *)
Definition path_Join (elem : list string) : string :=
  if forallb (String.eqb "") elem then "" else path_Clean (joinBuf "" elem).

(** [time.Time] and [time.Duration] as integers (nanoseconds). *)
Definition time_Add (t d : Z) : Z := t + d.
Definition time_Before (t u : Z) : bool := t <? u.

(** ** The outside world: clock, file system, network *)

Record File : Type := mkFile {
  ModTime : Z;
  Data : list Byte.byte }.

(** The calls that leave the process. *)
Inductive Event : Type :=
| EvStat (name : string)
| EvReadFile (name : string)
| EvMkdirAll (path : string)
| EvWriteFile (name : string) (data : list Byte.byte)
| EvHttpGet (url : string).

(** An HTTP response: its status code and what [io.ReadAll] gets of its body. *)
Record Response : Type := mkResponse {
  StatusCode : Z;
  Body : error + list Byte.byte }.

(** The world answers every call: [files] is the content of the file system;
    a fault makes the call on that path fail with the errno (a failed write
    leaves the file alone, or truncated to the bytes given); [network] is the
    answer to a GET of a URL; [trace] lists the calls made so far. *)
Record World : Type := mkWorld {
  clock : Z;
  files : gmap string File;
  statFault : string -> option Errno;
  readFault : string -> option Errno;
  mkdirFault : string -> option Errno;
  writeFault : string -> option (Errno * option (list Byte.byte));
  network : string -> error + Response;
  trace : list Event }.

Definition set_files (fs : gmap string File) (w : World) : World :=
  mkWorld (clock w) fs (statFault w) (readFault w) (mkdirFault w) (writeFault w)
    (network w) (trace w).

Definition record (e : Event) (w : World) : World :=
  mkWorld (clock w) (files w) (statFault w) (readFault w) (mkdirFault w) (writeFault w)
    (network w) (trace w ++ [e]).

(** [time.Now()]. *)
Definition time_Now (w : World) : Z := clock w.

(** [os.Stat]. *)
Definition os_Stat (name : string) (w : World) : (error + File) * World :=
  let w' := record (EvStat name) w in
  match statFault w name with
  | Some errno => (inl (PathError "stat" name errno), w')
  | None =>
      match files w !! name with
      | Some f => (inr f, w')
      | None => (inl (PathError "stat" name ENOENT), w')
      end
  end.

(** [os.ReadFile]. *)
Definition os_ReadFile (name : string) (w : World) : (error + list Byte.byte) * World :=
  let w' := record (EvReadFile name) w in
  match readFault w name with
  | Some errno => (inl (PathError "open" name errno), w')
  | None =>
      match files w !! name with
      | Some f => (inr (Data f), w')
      | None => (inl (PathError "open" name ENOENT), w')
      end
  end.

(** [os.MkdirAll]. *)
Definition os_MkdirAll (path : string) (w : World) : option error * World :=
  let w' := record (EvMkdirAll path) w in
  match mkdirFault w path with
  | Some errno => (Some (PathError "mkdir" path errno), w')
  | None => (None, w')
  end.

(** [os.WriteFile]: the file is replaced and stamped with the current time. *)
Definition os_WriteFile (name : string) (data : list Byte.byte) (w : World)
  : option error * World :=
  let w' := record (EvWriteFile name data) w in
  match writeFault w name with
  | Some (errno, None) => (Some (PathError "open" name errno), w')
  | Some (errno, Some part) =>
      (Some (PathError "write" name errno),
       set_files (<[name := mkFile (clock w) part]> (files w)) w')
  | None => (None, set_files (<[name := mkFile (clock w) data]> (files w)) w')
  end.

(** [http.Get] followed by reading the body. *)
Definition http_Get (url : string) (w : World) : (error + Response) * World :=
  (network w url, record (EvHttpGet url) w).

(** ** The receiver *)

Record Yanductor : Type := mkYanductor {
  workgroupNames : list string;
  cacheTTL : Z;
  cacheDir : string;
  apiURL : string;
  hosts : list Host;
  groups : list Group;
  workgroups : list WorkGroup;
  datacenters : list Datacenter;
  parentMap : gmap string string }.

(** The fields of [config.XCConfig] that the backend reads. *)
Record BackendConfig : Type := mkBackendConfig {
  Options : gmap string string }.

Record XCConfig : Type := mkXCConfig {
  CacheTTL : Z;
  CacheDir : string;
  BackendCfg : BackendConfig }.

Definition set_workgroupNames (v : list string) (y : Yanductor) : Yanductor :=
  mkYanductor v (cacheTTL y) (cacheDir y) (apiURL y)
    (hosts y) (groups y) (workgroups y) (datacenters y) (parentMap y).

Definition set_apiURL (v : string) (y : Yanductor) : Yanductor :=
  mkYanductor (workgroupNames y) (cacheTTL y) (cacheDir y) v
    (hosts y) (groups y) (workgroups y) (datacenters y) (parentMap y).

Definition set_hosts (v : list Host) (y : Yanductor) : Yanductor :=
  mkYanductor (workgroupNames y) (cacheTTL y) (cacheDir y) (apiURL y)
    v (groups y) (workgroups y) (datacenters y) (parentMap y).

Definition set_groups (v : list Group) (y : Yanductor) : Yanductor :=
  mkYanductor (workgroupNames y) (cacheTTL y) (cacheDir y) (apiURL y)
    (hosts y) v (workgroups y) (datacenters y) (parentMap y).

Definition set_datacenters (v : list Datacenter) (y : Yanductor) : Yanductor :=
  mkYanductor (workgroupNames y) (cacheTTL y) (cacheDir y) (apiURL y)
    (hosts y) (groups y) (workgroups y) v (parentMap y).

Definition set_parentMap (v : gmap string string) (y : Yanductor) : Yanductor :=
  mkYanductor (workgroupNames y) (cacheTTL y) (cacheDir y) (apiURL y)
    (hosts y) (groups y) (workgroups y) (datacenters y) v.

(** ** The parser *)

(** [contains]: a datacenter of that name is in the slice. *)
Fixpoint contains (slice : list Datacenter) (item : string) : bool :=
  match slice with
  | [] => false
  | s :: rest => if String.eqb (DatacenterName s) item then true else contains rest item
  end.

(** The loop over [children]: the first parent recorded for a child stays. *)
Definition recordChild (group : string) (pm : gmap string string) (child : Json.value)
  : gmap string string :=
  match child with
  | Json.Str childStr =>
      match pm !! childStr with
      | Some _ => pm
      | None => <[childStr := group]> pm
      end
  | _ => pm
  end.

(** [groupObj.Hosts = append(groupObj.Hosts, hostObj)]: [groupObj] points to
    the record appended last to [y.groups]. *)
Fixpoint appendToLastGroup (hostObj : Host) (gs : list Group) : list Group :=
  match gs with
  | [] => []
  | [g] => [mkGroup (Name g) (ParentID g) (Hosts g ++ [hostObj])]
  | g :: rest => g :: appendToLastGroup hostObj rest
  end.

(** The body of the loop over [hosts]. *)
Definition parseHost (hostvars : Json.object) (group : string)
    (y : Yanductor) (host : Json.value) : Yanductor :=
  match host with
  | Json.Str hostName =>
      match Json.as_map (Json.get hostName hostvars) with
      | None => y
      | Some hostInfo =>
          let dc := match Json.as_string (Json.get "dc" hostInfo) with
                    | Some dc => dc
                    | None => ""
                    end in
          let hostObj := mkHost hostName group dc in
          let y := set_hosts (hosts y ++ [hostObj]) y in
          let y := set_groups (appendToLastGroup hostObj (groups y)) y in
          if contains (datacenters y) dc then y
          else set_datacenters (datacenters y ++ [mkDatacenter dc]) y
      end
  | _ => y
  end.

(** The body of the loop over the top-level keys. *)
Definition parseGroup (hostvars : Json.object)
    (y : Yanductor) (entry : string * Json.value) : Yanductor :=
  let '(group, groupData) := entry in
  if String.eqb group "_meta" then y
  else
    match Json.as_map (Some groupData) with
    | None => y
    | Some groupMap =>
        let y :=
          match Json.as_slice (Json.get "children" groupMap) with
          | Some children =>
              set_parentMap (fold_left (recordChild group) children (parentMap y)) y
          | None => y
          end in
        let groupObj := mkGroup group (default "" (parentMap y !! group)) [] in
        let y := set_groups (groups y ++ [groupObj]) y in
        match Json.as_slice (Json.get "hosts" groupMap) with
        | Some hostList => fold_left (parseHost hostvars group) hostList y
        | None => y
        end
    end.

(** The four assignments that empty the collections. *)
Definition resetCollections (y : Yanductor) : Yanductor :=
  set_parentMap ∅ (set_datacenters [] (set_groups [] (set_hosts [] y))).

Section Backend.

(** [json.Unmarshal(data, &rawData)] for a nil [rawData] of type
    [map[string]interface{}]: an error, or the decoded map (JSON null leaves
    the map nil, which reads and ranges like the empty map).  The map comes
    as the list of its entries in the order in which the [range] statement of
    this run visits them: Go leaves that order open, so one document has a
    decoder for every order. *)
Variable json_Unmarshal : list Byte.byte -> error + Json.object.

Definition parseData (data : list Byte.byte) (y : Yanductor) : option error * Yanductor :=
  match json_Unmarshal data with
  | inl err => (Some err, y)
  | inr rawData =>
      let y := resetCollections y in
      match Json.as_map (Json.get "_meta" rawData) with
      | None => (Some (Errorf "invalid data format: missing _meta section" []), y)
      | Some meta =>
          match Json.as_map (Json.get "hostvars" meta) with
          | None => (Some (Errorf "invalid data format: missing hostvars section" []), y)
          | Some hostvars => (None, fold_left (parseGroup hostvars) rawData y)
          end
      end
  end.


(** *** The cache file *)

Definition cacheFilename (y : Yanductor) : string :=
  path_Join [cacheDir y;
             "yanductor_cache_" ++ strings_Join (workgroupNames y) "_" ++ ".json"].

Definition cacheExpired (y : Yanductor) (w : World) : bool * World :=
  let '(r, w) := os_Stat (cacheFilename y) w in
  match r with
  | inl err => (os_IsNotExist err, w)
  | inr st => (time_Before (time_Add (ModTime st) (cacheTTL y)) (time_Now w), w)
  end.

Definition saveCache (data : list Byte.byte) (y : Yanductor) (w : World)
  : option error * World :=
  let '(err, w) := os_MkdirAll (cacheDir y) w in
  match err with
  | Some err => (Some (Errorf "error creating cache dir: %s" [ArgError err]), w)
  | None => os_WriteFile (cacheFilename y) data w
  end.

(** *** Loading *)

Definition loadLocal (y : Yanductor) (w : World) : option error * Yanductor * World :=
  let '(r, w) := os_ReadFile (cacheFilename y) w in
  match r with
  | inl err => (Some err, y, w)
  | inr data => let '(err, y) := parseData data y in (err, y, w)
  end.

Definition requestURL (y : Yanductor) : string :=
  apiURL y ++ "/api/generator/rivik.ansible-inventory?projects="
    ++ strings_Join (workgroupNames y) ",".

Definition loadRemote (y : Yanductor) (w : World) : option error * Yanductor * World :=
  let url := requestURL y in
  let '(r, w) := http_Get url w in
  match r with
  | inl err => (Some err, y, w)
  | inr resp =>
      if negb (StatusCode resp =? 200) then
        (Some (Errorf "status code %d while fetching %s"
                 [ArgInt (StatusCode resp); ArgString url]), y, w)
      else
        match Body resp with
        | inl err => (Some err, y, w)
        | inr data =>
            let '(err, y) := parseData data y in
            match err with
            | Some err => (Some err, y, w)
            | None => let '(err, w) := saveCache data y w in (err, y, w)
            end
        end
  end.

(** [Reload] forces reloading data from HTTP(S). *)
Definition Reload (y : Yanductor) (w : World) : option error * Yanductor * World :=
  let '(err, y, w) := loadRemote y w in
  match err with
  | Some _ => loadLocal y w
  | None => (None, y, w)
  end.

(** [Load] tries to load data from cache unless it is expired; in case of
    cache expiration or absence it triggers [Reload]. *)
Definition Load (y : Yanductor) (w : World) : option error * Yanductor * World :=
  let '(expired, w) := cacheExpired y w in
  if expired then Reload y w else loadLocal y w.

(** *** Construction *)

(** [New] creates a new instance of the backend. *)
Definition New (cfg : XCConfig) (w : World) : (error + Yanductor) * World :=
  let y := mkYanductor [] (CacheTTL cfg) (CacheDir cfg) "" [] [] [] [] ∅ in
  let options := Options (BackendCfg cfg) in
  match options !! "work_groups" with
  | None => (inl (Errorf "yanductor backend workgroups are not configured" []), w)
  | Some wgString =>
      if String.eqb wgString "" then
        (inl (Errorf "yanductor backend workgroups are not configured" []), w)
      else
        let y := set_workgroupNames (splitExpr_Split wgString) y in
        match options !! "url" with
        | None => (inl (Errorf "yanductor backend API URL is not configured" []), w)
        | Some url =>
            let y := set_apiURL url y in
            let '(err, y, w) := Load y w in
            match err with
            | Some err => (inl (Errorf "error loading data: %s" [ArgError err]), w)
            | None => (inr y, w)
            end
        end
  end.

End Backend.

(** ** The notions of the specification, in its own words *)

(** The distinct names of a list, each at the place of its first occurrence. *)
Fixpoint firstOccurrences (l : list string) : list string :=
  match l with
  | [] => []
  | x :: l' => x :: filter (fun z => z <> x) (firstOccurrences l')
  end.

(** The "dc" attribute of a hostvars entry: its string when there is one, the
    empty string otherwise. *)
Definition dcAttribute (hostInfo : Json.object) : string :=
  match Json.get "dc" hostInfo with
  | Some (Json.Str s) => s
  | _ => ""
  end.

(** Every group record carries the parent that the finished child-to-parent
    mapping gives its name (the empty string when it gives none). *)
Definition parentsResolved (y : Yanductor) : Prop :=
  forall g, g ∈ groups y -> ParentID g = default "" (parentMap y !! Name g).

Definition datacenterNames (y : Yanductor) : list string :=
  DatacenterName <$> datacenters y.

Definition hostDatacenters (y : Yanductor) : list string :=
  DatacenterID <$> hosts y.

(** The invariant of the loops behind the datacenter collection: its names
    are the first occurrences among the datacenters of the host records. *)
Definition datacentersInv (y : Yanductor) : Prop :=
  datacenterNames y = firstOccurrences (hostDatacenters y).

(** The invariant behind the host records: each has a hostvars entry and
    carries that entry's "dc" attribute. *)
Definition hostsInv (hostvars : Json.object) (y : Yanductor) : Prop :=
  forall h, h ∈ hosts y ->
    exists hostInfo, Json.get (FQDN h) hostvars = Some (Json.Object hostInfo)
                     /\ DatacenterID h = dcAttribute hostInfo.

(** A path element that [path.Clean] keeps as it is: not empty, without a
    slash, and neither "." nor "..". *)
Definition hasSlash (s : string) : bool :=
  existsb (Ascii.eqb "/") (list_ascii_of_string s).

Definition properElement (e : string) : bool :=
  negb (String.eqb e "") && negb (String.eqb e ".") && negb (String.eqb e "..")
  && negb (hasSlash e).

(** A directory path in clean form: proper elements with one slash between
    them, after a leading slash or not (such as /var/cache/xc or cache/xc). *)
Definition cleanDir (d : string) : bool :=
  match pathElements d with
  | [] => false
  | e :: rest =>
      if String.eqb e "" then
        match rest with
        | [] => false
        | _ => forallb properElement rest
        end
      else forallb properElement (e :: rest)
  end.

(** The freshness check of the specification, through the code's
    [cacheExpired]: the cache is fresh when it is not reported expired. *)
Definition cacheFresh (y : Yanductor) (w : World) : bool :=
  negb (fst (cacheExpired y w)).

(** The configuration fields, which no load changes. *)
Definition sameConfig (y y' : Yanductor) : Prop :=
  workgroupNames y' = workgroupNames y /\ cacheTTL y' = cacheTTL y
  /\ cacheDir y' = cacheDir y /\ apiURL y' = apiURL y.

(** The fetch fails at the network layer: no response, a status other than
    200, or a body that cannot be read. *)
Inductive fetchFails (w : World) (url : string) : Prop :=
| fails_transport (e : error) : network w url = inl e -> fetchFails w url
| fails_status (resp : Response) :
    network w url = inr resp -> StatusCode resp <> 200 -> fetchFails w url
| fails_body (resp : Response) (e : error) :
    network w url = inr resp -> StatusCode resp = 200 -> Body resp = inl e ->
    fetchFails w url.

(** ** Sample documents, receivers and worlds *)

(** JSON text written with single quotes for the double ones. *)
Definition jsonText (s : string) : list Byte.byte :=
  map (fun c => byte_of_ascii (if Ascii.eqb c "'" then ascii_of_nat 34 else c))
      (list_ascii_of_string s).

(** A decoder given by a table from texts to what they decode to; any other
    text is refused. *)
Fixpoint decodeTable (table : list (list Byte.byte * Json.object)) (data : list Byte.byte)
  : error + Json.object :=
  match table with
  | [] => inl (LibError "encoding/json" "invalid character")
  | (text, doc) :: table' =>
      if String.eqb (string_of_list_byte text) (string_of_list_byte data)
      then inr doc else decodeTable table' data
  end.

(** Scenario A of the specification. *)
Definition scenarioA : list Byte.byte :=
  jsonText "{'_meta':{'hostvars':{'a.x':{'dc':'dc1'}}},'g1':{'hosts':['a.x'],'children':['g2']},'g2':{'hosts':[]}}".

Definition scenarioA_meta : string * Json.value :=
  ("_meta", Json.Object [("hostvars",
     Json.Object [("a.x", Json.Object [("dc", Json.Str "dc1")])])]).

Definition scenarioA_g1 : string * Json.value :=
  ("g1", Json.Object [("hosts", Json.Array [Json.Str "a.x"]);
                      ("children", Json.Array [Json.Str "g2"])]).

Definition scenarioA_g2 : string * Json.value :=
  ("g2", Json.Object [("hosts", Json.Array [])]).

(** The decoded map of scenario A, ranged over in two of its possible orders. *)
Definition scenarioA_g1_first : Json.object :=
  [scenarioA_meta; scenarioA_g1; scenarioA_g2].

Definition scenarioA_g2_first : Json.object :=
  [scenarioA_g2; scenarioA_meta; scenarioA_g1].

(** A document that lists a host without hostvars and one without "dc". *)
Definition lenientDoc : list Byte.byte :=
  jsonText "{'_meta':{'hostvars':{'a.x':{'dc':'dc1'},'b.x':{},'c.x':{'dc':'dc1'}}},'g1':{'hosts':['a.x','ghost','b.x','c.x']}}".

Definition lenientDoc_hostvars : Json.object :=
  [("a.x", Json.Object [("dc", Json.Str "dc1")]);
   ("b.x", Json.Object []);
   ("c.x", Json.Object [("dc", Json.Str "dc1")])].

Definition lenientDoc_meta : Json.object :=
  [("hostvars", Json.Object lenientDoc_hostvars)].

Definition lenientDoc_decoded : Json.object :=
  [("_meta", Json.Object lenientDoc_meta);
   ("g1", Json.Object [("hosts",
      Json.Array [Json.Str "a.x"; Json.Str "ghost"; Json.Str "b.x"; Json.Str "c.x"])])].

(** A document without the "_meta" section. *)
Definition noMetaDoc : list Byte.byte := jsonText "{'g1':{'hosts':[]}}".

Definition noMetaDoc_decoded : Json.object :=
  [("g1", Json.Object [("hosts", Json.Array [])])].

Definition notJson : list Byte.byte := jsonText "<html>502</html>".

Definition sampleUnmarshal : list Byte.byte -> error + Json.object :=
  decodeTable [(scenarioA, scenarioA_g1_first);
               (lenientDoc, lenientDoc_decoded);
               (noMetaDoc, noMetaDoc_decoded)].

(** The same decoder on a run that ranges over scenario A from "g2". *)
Definition sampleUnmarshal_g2_first : list Byte.byte -> error + Json.object :=
  decodeTable [(scenarioA, scenarioA_g2_first)].

Definition sampleReceiver : Yanductor :=
  mkYanductor ["web"; "db"] 3600 "/var/cache/xc" "http://inventory" [] [] [] [] ∅.

(** A receiver that holds the result of an earlier load. *)
Definition loadedReceiver : Yanductor :=
  mkYanductor ["web"; "db"] 3600 "/var/cache/xc" "http://inventory"
    [mkHost "old.x" "g0" "dc0"] [mkGroup "g0" "" [mkHost "old.x" "g0" "dc0"]] []
    [mkDatacenter "dc0"] {["g9" := "g0"]}.

Definition sampleCacheFile : string := "/var/cache/xc/yanductor_cache_web_db.json".

Definition sampleURL : string :=
  "http://inventory/api/generator/rivik.ansible-inventory?projects=web,db".

Definition noFault {A : Type} : string -> option A := fun _ => None.

Definition faultAt {A : Type} (path : string) (a : A) : string -> option A :=
  fun p => if String.eqb p path then Some a else None.

Definition unreachable : string -> error + Response :=
  fun _ => inl (LibError "net/http" "connection refused").

Definition answers (status : Z) (body : list Byte.byte) : string -> error + Response :=
  fun _ => inr (mkResponse status (inr body)).

(** No cache file, no network. *)
Definition bareWorld : World :=
  mkWorld 10000 ∅ noFault noFault noFault noFault unreachable [].

(** A cache file of scenario A written at time [mtime]; the service answers
    [status] with [body]. *)
Definition cachedWorld (mtime status : Z) (body : list Byte.byte) : World :=
  mkWorld 10000 {[sampleCacheFile := mkFile mtime scenarioA]}
    noFault noFault noFault noFault (answers status body) [].

(** The service answers scenario A, the cache directory cannot be made and
    there is no cache file. *)
Definition readOnlyWorld : World :=
  mkWorld 10000 ∅ noFault noFault (faultAt "/var/cache/xc" EROFS) noFault
    (answers 200 scenarioA) [].

(** The cache file is there and cannot be examined. *)
Definition forbiddenWorld : World :=
  mkWorld 10000 {[sampleCacheFile := mkFile 0 scenarioA]}
    (faultAt sampleCacheFile EACCES) noFault noFault noFault unreachable [].

(** A cache file of scenario A written at time [mtime], and no network. *)
Definition offlineWorld (mtime : Z) : World :=
  mkWorld 10000 {[sampleCacheFile := mkFile mtime scenarioA]}
    noFault noFault noFault noFault unreachable [].

Definition sampleConfig (options : list (string * string)) : XCConfig :=
  mkXCConfig 3600 "/var/cache/xc" (mkBackendConfig (list_to_map options)).

(** ** The parse, written as functions of the document *)

(** A top-level entry that stands for a group: any key but "_meta" whose
    value is a map. *)
Definition isGroupEntry (entry : string * Json.value) : option (string * Json.object) :=
  match entry with
  | (group, Json.Object groupMap) =>
      if String.eqb group "_meta" then None else Some (group, groupMap)
  | _ => None
  end.

Definition groupEntries (rawData : Json.object) : list (string * Json.object) :=
  omap isGroupEntry rawData.

(** The "hosts" and "children" lists of a group, empty when the key is
    missing or holds no list. *)
Definition listedHosts (groupMap : Json.object) : list Json.value :=
  default [] (Json.as_slice (Json.get "hosts" groupMap)).

Definition listedChildren (groupMap : Json.object) : list Json.value :=
  default [] (Json.as_slice (Json.get "children" groupMap)).

(** The record of one listed host: there is one when the entry is a string
    and the hostvars table has a map for it. *)
Definition hostRecord (hostvars : Json.object) (group : string) (host : Json.value)
  : option Host :=
  match host with
  | Json.Str hostName =>
      match Json.get hostName hostvars with
      | Some (Json.Object hostInfo) => Some (mkHost hostName group (dcAttribute hostInfo))
      | _ => None
      end
  | _ => None
  end.

Definition groupHosts (hostvars : Json.object) (group : string)
    (hostList : list Json.value) : list Host :=
  omap (hostRecord hostvars group) hostList.

Definition entryHosts (hostvars : Json.object) (entry : string * Json.value) : list Host :=
  match isGroupEntry entry with
  | Some (group, groupMap) => groupHosts hostvars group (listedHosts groupMap)
  | None => []
  end.

(** The host records of a document: group after group in range order, and
    within a group in the order of its list. *)
Definition documentHosts (hostvars : Json.object) (rawData : Json.object) : list Host :=
  rawData ≫= entryHosts hostvars.

(** What a group record shows of its group, next to the parent: the name
    and the host records; and the same read off a group entry of the
    document. *)
Definition groupOutline (g : Group) : string * list Host := (Name g, Hosts g).

Definition entryOutline (hostvars : Json.object) (entry : string * Json.object)
  : string * list Host :=
  (fst entry, groupHosts hostvars (fst entry) (listedHosts (snd entry))).

(** The entry is a group that names [child] among its children. *)
Definition isChildNamed (child : string) (v : Json.value) : bool :=
  match v with
  | Json.Str s => String.eqb s child
  | _ => false
  end.

Definition listsChild (child : string) (entry : string * Json.value) : bool :=
  match isGroupEntry entry with
  | Some (_, groupMap) => existsb (isChildNamed child) (listedChildren groupMap)
  | None => false
  end.

(** The first group, in range order, that names [child] among its children. *)
Definition firstParent (rawData : Json.object) (child : string) : option string :=
  fst <$> List.find (listsChild child) rawData.

(** A name without a comma and without white space, and a string of white
    space only. *)
Definition plainName (n : string) : bool :=
  forallb (fun c => negb (Ascii.eqb c ",") && negb (isSpace c)) (list_ascii_of_string n).

Definition allSpace (s : string) : bool :=
  forallb isSpace (list_ascii_of_string s).

(** Every field but the four collections a parse rebuilds. *)
Definition sameSettings (y y' : Yanductor) : Prop :=
  sameConfig y y' /\ workgroups y' = workgroups y.

(** The calls [Reload] makes after its GET, for a cache file [name] in the
    directory [dir]: the read of the fallback alone, or the making of the
    directory and then the read, the write of [data], or both. *)
Inductive reloadCalls (dir name : string) : option (list Byte.byte) -> list Event -> Prop :=
| calls_fallback : reloadCalls dir name None [EvReadFile name]
| calls_mkdir_failed data :
    reloadCalls dir name (Some data) [EvMkdirAll dir; EvReadFile name]
| calls_written data :
    reloadCalls dir name (Some data) [EvMkdirAll dir; EvWriteFile name data]
| calls_write_failed data :
    reloadCalls dir name (Some data)
      [EvMkdirAll dir; EvWriteFile name data; EvReadFile name].

(** A document in which two groups list the same host and name the same
    child, ranged over from "g1". *)
Definition sharedDoc : list Byte.byte :=
  jsonText "{'_meta':{'hostvars':{'a.x':{'dc':'dc1'}}},'g1':{'hosts':['a.x'],'children':['g3']},'g2':{'hosts':['a.x',7],'children':['g3']},'g3':{},'note':'x'}".

Definition sharedDoc_hostvars : Json.object :=
  [("a.x", Json.Object [("dc", Json.Str "dc1")])].

Definition sharedDoc_meta : Json.object :=
  [("hostvars", Json.Object sharedDoc_hostvars)].

Definition sharedDoc_decoded : Json.object :=
  [("g1", Json.Object [("hosts", Json.Array [Json.Str "a.x"]);
                       ("children", Json.Array [Json.Str "g3"])]);
   ("note", Json.Str "x");
   ("g2", Json.Object [("hosts", Json.Array [Json.Str "a.x"; Json.Number 7]);
                       ("children", Json.Array [Json.Str "g3"])]);
   ("_meta", Json.Object sharedDoc_meta);
   ("g3", Json.Object [])].

Definition sharedUnmarshal : list Byte.byte -> error + Json.object :=
  decodeTable [(sharedDoc, sharedDoc_decoded)].


(** * Properties *)

(** Closed facts about the samples are settled by evaluation. *)
Ltac by_evaluation := vm_compute; reflexivity.

(** ** Loops *)

Lemma fold_left_invariant {A B : Type} (P : A -> Prop) (f : A -> B -> A) (l : list B) :
  (forall a b, P a -> P (f a b)) -> forall a, P a -> P (fold_left f l a).
Proof.
  intros Hstep. induction l as [|b l IH]; intros a Ha; simpl.
  - exact Ha.
  - apply IH, Hstep, Ha.
Qed.

(** ** First occurrences *)

Lemma firstOccurrences_elem (l : list string) (x : string) :
  x ∈ firstOccurrences l <-> x ∈ l.
Proof.
  induction l as [|a l IH]; simpl; [reflexivity|].
  rewrite !elem_of_cons, list_elem_of_filter, IH.
  destruct (decide (x = a)) as [->|Hne]; tauto.
Qed.

Lemma firstOccurrences_NoDup (l : list string) : NoDup (firstOccurrences l).
Proof.
  induction l as [|a l IH]; simpl; [constructor|].
  apply NoDup_cons. split.
  - rewrite list_elem_of_filter. tauto.
  - apply NoDup_filter, IH.
Qed.

Lemma firstOccurrences_snoc_new (l : list string) (x : string) :
  x ∉ l -> firstOccurrences (l ++ [x]) = (firstOccurrences l ++ [x])%list.
Proof.
  induction l as [|a l IH]; simpl; intros Hx; [reflexivity|].
  apply not_elem_of_cons in Hx as [Hne Hx].
  rewrite (IH Hx), filter_app, filter_cons_True by exact Hne.
  reflexivity.
Qed.

Lemma firstOccurrences_snoc_old (l : list string) (x : string) :
  x ∈ l -> firstOccurrences (l ++ [x]) = firstOccurrences l.
Proof.
  induction l as [|a l IH]; simpl; intros Hx; [now apply elem_of_nil in Hx|].
  f_equal. destruct (decide (x ∈ l)) as [Hl|Hl].
  - now rewrite (IH Hl).
  - apply elem_of_cons in Hx as [->|Hx]; [|contradiction].
    rewrite (firstOccurrences_snoc_new _ _ Hl), filter_app.
    rewrite filter_cons_False by tauto.
    apply app_nil_r.
Qed.

(** ** Paths: [path.Join] on a clean directory and a file name *)

Lemma pathElements_nonempty p : pathElements p <> [].
Proof.
  destruct p as [|c p]; simpl; [discriminate|].
  destruct (Ascii.eqb c "/"); [discriminate|].
  destruct (pathElements p); discriminate.
Qed.

Lemma concat_pathElements p : String.concat "/" (pathElements p) = p.
Proof.
  induction p as [|c p IH]; [reflexivity|]. cbn [pathElements].
  pose proof (pathElements_nonempty p) as Hne.
  destruct (Ascii.eqb_spec c "/") as [->|Hc].
  - destruct (pathElements p) as [|e es]; [contradiction|].
    change (String.concat "/" ("" :: e :: es)) with ("" ++ "/" ++ String.concat "/" (e :: es)).
    now rewrite IH.
  - destruct (pathElements p) as [|e es]; [contradiction|].
    rewrite <- IH. destruct es as [|e' es]; reflexivity.
Qed.

Lemma pathElements_app_slash a b :
  pathElements (a ++ "/" ++ b) = (pathElements a ++ pathElements b)%list.
Proof.
  induction a as [|c a IH]; [reflexivity|].
  change (String c a ++ "/" ++ b) with (String c (a ++ "/" ++ b)). cbn [pathElements].
  rewrite IH. destruct (Ascii.eqb c "/"); [reflexivity|].
  pose proof (pathElements_nonempty a) as Hne.
  destruct (pathElements a) as [|e es]; [contradiction|reflexivity].
Qed.

Lemma pathElements_noSlash s : hasSlash s = false -> pathElements s = [s].
Proof.
  unfold hasSlash. induction s as [|c s IH]; [reflexivity|].
  cbn [existsb list_ascii_of_string pathElements].
  rewrite (Ascii.eqb_sym "/" c). destruct (Ascii.eqb c "/"); [discriminate|].
  cbn [orb]. intros Hs. now rewrite (IH Hs).
Qed.

Lemma hasSlash_append a b : hasSlash (a ++ b) = hasSlash a || hasSlash b.
Proof.
  unfold hasSlash. induction a as [|c a IH]; [reflexivity|].
  change (String c a ++ b) with (String c (a ++ b)).
  cbn [existsb list_ascii_of_string]. now rewrite IH, orb_assoc.
Qed.

Lemma hasSlash_concat sep names :
  hasSlash sep = false -> Forall (fun n => hasSlash n = false) names ->
  hasSlash (String.concat sep names) = false.
Proof.
  intros Hsep. induction 1 as [|n names Hn Hnames IH]; [reflexivity|].
  destruct names as [|n' names]; [exact Hn|].
  change (String.concat sep (n :: n' :: names)) with (n ++ sep ++ String.concat sep (n' :: names)).
  now rewrite !hasSlash_append, Hn, Hsep, IH.
Qed.

Lemma cleanStep_proper rooted kept e :
  properElement e = true -> cleanStep rooted kept e = e :: kept.
Proof.
  unfold properElement, cleanStep. rewrite !andb_true_iff, !negb_true_iff.
  intros [[[-> ->] ->] _]. reflexivity.
Qed.

Lemma fold_cleanStep_proper rooted es kept :
  forallb properElement es = true ->
  fold_left (cleanStep rooted) es kept = (rev es ++ kept)%list.
Proof.
  revert kept. induction es as [|e es IH]; intros kept; [reflexivity|]. simpl.
  rewrite andb_true_iff. intros [He Hes].
  rewrite (cleanStep_proper _ _ _ He), (IH _ Hes), <- app_assoc. reflexivity.
Qed.

Lemma isRooted_pathElements d :
  isRooted d = match pathElements d with
               | e :: _ :: _ => String.eqb e ""
               | _ => false
               end.
Proof.
  destruct d as [|c d]; [reflexivity|]. cbn [isRooted pathElements].
  pose proof (pathElements_nonempty d) as Hne.
  destruct (Ascii.eqb c "/").
  - destruct (pathElements d); [contradiction|reflexivity].
  - destruct (pathElements d) as [|e [|e' es]]; [contradiction|reflexivity|reflexivity].
Qed.

Lemma cleanDir_nonempty d : cleanDir d = true -> d <> "".
Proof. intros Hd ->. discriminate Hd. Qed.

Lemma isRooted_append d s : d <> "" -> isRooted (d ++ s) = isRooted d.
Proof. destruct d; [congruence|reflexivity]. Qed.

Lemma concat_cons_cons sep x y l :
  String.concat sep (x :: y :: l) = x ++ sep ++ String.concat sep (y :: l).
Proof. reflexivity. Qed.

(** [path.Clean] leaves a clean directory followed by a proper element as it is. *)
Lemma path_Clean_dir_element d f :
  cleanDir d = true -> properElement f = true ->
  path_Clean (d ++ "/" ++ f) = d ++ "/" ++ f.
Proof.
  intros Hd Hf. unfold path_Clean.
  assert (Hslash : hasSlash f = false).
  { unfold properElement in Hf. rewrite !andb_true_iff, !negb_true_iff in Hf. tauto. }
  rewrite (isRooted_append d _ (cleanDir_nonempty d Hd)), isRooted_pathElements.
  pose proof (concat_pathElements (d ++ "/" ++ f)) as Hcat.
  rewrite pathElements_app_slash, (pathElements_noSlash f Hslash) in Hcat |- *.
  rewrite <- Hcat. clear Hcat.
  unfold cleanDir in Hd. destruct (pathElements d) as [|e rest]; [discriminate|].
  destruct (String.eqb_spec e "") as [->|He].
  - destruct rest as [|e' rest]; [discriminate|].
    change (fold_left (cleanStep true) (("" :: e' :: rest) ++ [f]) [])
      with (fold_left (cleanStep true) ((e' :: rest) ++ [f]) []).
    assert (Hall : forallb properElement ((e' :: rest) ++ [f]) = true).
    { rewrite forallb_app, Hd. cbn. now rewrite Hf. }
    rewrite (fold_cleanStep_proper true _ [] Hall), app_nil_r, rev_involutive.
    reflexivity.
  - assert (Hall : forallb properElement ((e :: rest) ++ [f]) = true).
    { rewrite forallb_app, Hd. cbn. now rewrite Hf. }
    rewrite (fold_cleanStep_proper _ _ [] Hall), app_nil_r, rev_involutive.
    destruct rest; reflexivity.
Qed.

Lemma path_Join_dir_element d f :
  cleanDir d = true -> properElement f = true ->
  path_Join [d; f] = d ++ "/" ++ f.
Proof.
  intros Hd Hf. unfold path_Join.
  assert (Hfne : String.eqb "" f = false).
  { destruct f; [discriminate Hf|reflexivity]. }
  cbn [forallb]. rewrite Hfne. cbn [andb]. rewrite andb_false_r.
  pose proof (cleanDir_nonempty d Hd) as Hdne.
  cbn [joinBuf]. rewrite String.eqb_refl.
  destruct (String.eqb_spec d "") as [|_]; [contradiction|].
  now apply path_Clean_dir_element.
Qed.

Lemma cacheFile_properElement names :
  Forall (fun n => hasSlash n = false) names ->
  properElement ("yanductor_cache_" ++ strings_Join names "_" ++ ".json") = true.
Proof.
  intros Hnames. unfold properElement, strings_Join.
  rewrite !hasSlash_append, (hasSlash_concat "_" names eq_refl Hnames). reflexivity.
Qed.

(** ** The parser's loops *)

Lemma contains_spec (slice : list Datacenter) (item : string) :
  contains slice item = true <-> item ∈ (DatacenterName <$> slice).
Proof.
  induction slice as [|s rest IH]; cbn [contains].
  - rewrite fmap_nil, elem_of_nil. split; [discriminate|tauto].
  - rewrite fmap_cons, elem_of_cons, <- IH.
    destruct (String.eqb_spec (DatacenterName s) item) as [->|Hne]; [tauto|].
    split; [tauto|]. intros [Heq|Hin]; [congruence|exact Hin].
Qed.

(** The code reads "dc" as the specification words it. *)
Lemma dc_read_is_dcAttribute (hostInfo : Json.object) :
  match Json.as_string (Json.get "dc" hostInfo) with
  | Some dc => dc
  | None => ""
  end = dcAttribute hostInfo.
Proof.
  unfold dcAttribute. destruct (Json.get "dc" hostInfo) as [[]|]; reflexivity.
Qed.

(** What holds before a group is visited holds after it, when it survives
    the host loop's body and does not depend on the groups and the parent
    map. *)
Lemma parseGroup_invariant (P : Yanductor -> Prop) (hostvars : Json.object) :
  (forall y pm, P y -> P (set_parentMap pm y)) ->
  (forall y gs, P y -> P (set_groups gs y)) ->
  (forall group y host, P y -> P (parseHost hostvars group y host)) ->
  forall y entry, P y -> P (parseGroup hostvars y entry).
Proof.
  intros Hpm Hgs Hhost y [group groupData] Hy. unfold parseGroup.
  destruct (String.eqb group "_meta"); [exact Hy|].
  destruct (Json.as_map (Some groupData)) as [groupMap|]; [|exact Hy].
  cbn zeta.
  assert (Hchildren : P match Json.as_slice (Json.get "children" groupMap) with
                        | Some children =>
                            set_parentMap
                              (fold_left (recordChild group) children (parentMap y)) y
                        | None => y
                        end).
  { destruct (Json.as_slice (Json.get "children" groupMap)); [apply Hpm|]; exact Hy. }
  destruct (Json.as_slice (Json.get "hosts" groupMap)) as [hostList|].
  - apply fold_left_invariant; [intros; apply Hhost; assumption|].
    apply Hgs, Hchildren.
  - apply Hgs, Hchildren.
Qed.

Lemma parseHost_datacentersInv hostvars group y host :
  datacentersInv y -> datacentersInv (parseHost hostvars group y host).
Proof.
  unfold datacentersInv, datacenterNames, hostDatacenters, parseHost. intros Hinv.
  destruct host as [| | |hostName| |]; try exact Hinv.
  destruct (Json.as_map (Json.get hostName hostvars)) as [hostInfo|]; [|exact Hinv].
  cbn zeta. rewrite dc_read_is_dcAttribute. set (dc := dcAttribute hostInfo).
  destruct (contains _ dc) eqn:Hc; simpl in *; rewrite !fmap_app; simpl.
  - apply contains_spec in Hc. rewrite Hinv, firstOccurrences_elem in Hc.
    now rewrite firstOccurrences_snoc_old.
  - assert (Hn : dc ∉ DatacenterID <$> hosts y).
    { rewrite <- firstOccurrences_elem, <- Hinv, <- contains_spec, Hc. discriminate. }
    now rewrite firstOccurrences_snoc_new, Hinv.
Qed.

Lemma parseHost_hostsInv hostvars group y host :
  hostsInv hostvars y -> hostsInv hostvars (parseHost hostvars group y host).
Proof.
  unfold hostsInv, parseHost. intros Hinv.
  destruct host as [| | |hostName| |]; try exact Hinv.
  destruct (Json.get hostName hostvars) as [[| | | | |hostInfo]|] eqn:Hget;
    try exact Hinv.
  cbn [Json.as_map]. cbn zeta. rewrite dc_read_is_dcAttribute.
  assert (Hnew : forall h, h ∈ (hosts y ++ [mkHost hostName group (dcAttribute hostInfo)])%list ->
            exists hi, Json.get (FQDN h) hostvars = Some (Json.Object hi)
                       /\ DatacenterID h = dcAttribute hi).
  { intros h [Hin|Hin]%elem_of_app; [now apply Hinv|].
    apply list_elem_of_singleton in Hin as ->. now exists hostInfo. }
  destruct (contains _ _); exact Hnew.
Qed.

Lemma sameConfig_refl y : sameConfig y y.
Proof. repeat split. Qed.

Lemma sameConfig_reset y : sameConfig y (resetCollections y).
Proof. repeat split. Qed.

Lemma parseHost_sameConfig hostvars y0 group y host :
  sameConfig y0 y -> sameConfig y0 (parseHost hostvars group y host).
Proof.
  unfold parseHost. intros Hc.
  destruct host as [| | |hostName| |]; try exact Hc.
  destruct (Json.as_map (Json.get hostName hostvars)); [|exact Hc].
  cbn zeta. destruct (contains _ _); exact Hc.
Qed.

(** ** The parser *)

Section ParserProperties.

Variable json_Unmarshal : list Byte.byte -> error + Json.object.

(** A parse succeeds exactly when the bytes decode and the document has a
    "_meta" map with a "hostvars" map; the result is the fold of the loop
    body over the entries, from emptied collections. *)
Lemma parseData_success data y y' :
  parseData json_Unmarshal data y = (None, y') <->
  exists rawData meta hostvars,
    json_Unmarshal data = inr rawData
    /\ Json.as_map (Json.get "_meta" rawData) = Some meta
    /\ Json.as_map (Json.get "hostvars" meta) = Some hostvars
    /\ y' = fold_left (parseGroup hostvars) rawData (resetCollections y).
Proof.
  unfold parseData. split.
  - destruct (json_Unmarshal data) as [err|rawData] eqn:Hdec; [discriminate|].
    destruct (Json.as_map (Json.get "_meta" rawData)) as [meta|] eqn:Hmeta;
      [|discriminate].
    destruct (Json.as_map (Json.get "hostvars" meta)) as [hostvars|] eqn:Hvars;
      [|discriminate].
    intros [= <-]. now exists rawData, meta, hostvars.
  - intros (rawData & meta & hostvars & -> & -> & -> & ->). reflexivity.
Qed.

(** Whatever the bytes, the configuration fields are as before. *)
Lemma parseData_sameConfig data y :
  sameConfig y (snd (parseData json_Unmarshal data y)).
Proof.
  unfold parseData. destruct (json_Unmarshal data) as [err|rawData]; [apply sameConfig_refl|].
  destruct (Json.as_map (Json.get "_meta" rawData)) as [meta|]; [|apply sameConfig_reset].
  destruct (Json.as_map (Json.get "hostvars" meta)) as [hostvars|]; [|apply sameConfig_reset].
  apply fold_left_invariant; [|apply sameConfig_reset].
  intros y1 entry. apply (parseGroup_invariant (sameConfig y)); try (intros; assumption).
  intros; now apply parseHost_sameConfig.
Qed.

(** C8: after a successful parse the datacenter collection has no two
    entries of one name, holds exactly the datacenter names of the host
    records made (the empty name among them when a host has none), and lists
    them in the order of their first occurrence. *)
Theorem datacenters_distinct_in_first_occurrence_order data y y' :
  parseData json_Unmarshal data y = (None, y') ->
  NoDup (datacenterNames y')
  /\ (forall name, name ∈ datacenterNames y' <-> name ∈ hostDatacenters y')
  /\ datacenterNames y' = firstOccurrences (hostDatacenters y').
Proof.
  intros (rawData & meta & hostvars & _ & _ & _ & ->)%parseData_success.
  assert (Hinv : datacentersInv (fold_left (parseGroup hostvars) rawData (resetCollections y))).
  { apply fold_left_invariant; [|reflexivity].
    apply (parseGroup_invariant datacentersInv); try (intros; assumption).
    intros; now apply parseHost_datacentersInv. }
  unfold datacentersInv in Hinv. rewrite Hinv. split; [|split].
  - apply firstOccurrences_NoDup.
  - intros name. apply firstOccurrences_elem.
  - reflexivity.
Qed.

(** C7: when the bytes decode to a document with a hostvars table, the parse
    succeeds whatever host names the groups list; every host record made has
    an entry in the table and its DatacenterID is the string of that entry's
    "dc" attribute, the empty string when there is none; a host name without
    an entry in the table has no record. *)
Theorem hosts_carry_dc_attribute_unknown_hosts_skipped data y rawData meta hostvars :
  json_Unmarshal data = inr rawData ->
  Json.as_map (Json.get "_meta" rawData) = Some meta ->
  Json.as_map (Json.get "hostvars" meta) = Some hostvars ->
  exists y',
    parseData json_Unmarshal data y = (None, y')
    /\ (forall h, h ∈ hosts y' ->
          exists hostInfo, Json.get (FQDN h) hostvars = Some (Json.Object hostInfo)
                           /\ DatacenterID h = dcAttribute hostInfo)
    /\ (forall hostName, Json.get hostName hostvars = None ->
          forall h, h ∈ hosts y' -> FQDN h <> hostName).
Proof.
  intros Hdec Hmeta Hvars.
  exists (fold_left (parseGroup hostvars) rawData (resetCollections y)).
  assert (Hinv : hostsInv hostvars (fold_left (parseGroup hostvars) rawData (resetCollections y))).
  { apply fold_left_invariant.
    - apply (parseGroup_invariant (hostsInv hostvars)); try (intros; assumption).
      intros; now apply parseHost_hostsInv.
    - intros h Hin. now apply elem_of_nil in Hin. }
  split; [|split].
  - apply parseData_success. now exists rawData, meta, hostvars.
  - exact Hinv.
  - intros hostName Hnone h Hin Heq.
    destruct (Hinv h Hin) as (hostInfo & Hget & _). congruence.
Qed.

(** C9: bytes that do not decode make [parseData] return the decoder's error
    and leave the receiver as it was; bytes that decode to a document without
    a "_meta" map, or whose "_meta" has no "hostvars" map, make it return an
    error with hosts, groups, datacenters and parent map already emptied. *)
Theorem parseData_failure_keeps_or_clears data y :
  (forall err, json_Unmarshal data = inl err ->
     parseData json_Unmarshal data y = (Some err, y))
  /\ (forall rawData, json_Unmarshal data = inr rawData ->
        Json.as_map (Json.get "_meta" rawData) = None
        \/ (exists meta, Json.as_map (Json.get "_meta" rawData) = Some meta
                         /\ Json.as_map (Json.get "hostvars" meta) = None) ->
        exists err y',
          parseData json_Unmarshal data y = (Some err, y')
          /\ hosts y' = [] /\ groups y' = [] /\ datacenters y' = []
          /\ parentMap y' = ∅
          /\ y' = resetCollections y).
Proof.
  unfold parseData. split.
  - intros err ->. reflexivity.
  - intros rawData -> [Hmeta|(meta & Hmeta & Hvars)]; rewrite Hmeta; [|rewrite Hvars];
      eexists _, _; repeat split.
Qed.

End ParserProperties.

(** *** The parser on the sample documents *)

(** C8 on a document whose hosts have the datacenters dc1, none, dc1. *)
Lemma datacenters_of_lenientDoc :
  let y' := snd (parseData sampleUnmarshal lenientDoc loadedReceiver) in
  parseData sampleUnmarshal lenientDoc loadedReceiver = (None, y')
  /\ hostDatacenters y' = ["dc1"; ""; "dc1"]
  /\ datacenterNames y' = ["dc1"; ""]
  /\ NoDup (datacenterNames y')
  /\ (forall name, name ∈ datacenterNames y' <-> name ∈ hostDatacenters y')
  /\ datacenterNames y' = firstOccurrences (hostDatacenters y').
Proof.
  assert (Hparse : parseData sampleUnmarshal lenientDoc loadedReceiver
                   = (None, snd (parseData sampleUnmarshal lenientDoc loadedReceiver)))
    by by_evaluation.
  split; [exact Hparse|]. split; [by_evaluation|]. split; [by_evaluation|].
  exact (datacenters_distinct_in_first_occurrence_order
           sampleUnmarshal lenientDoc loadedReceiver _ Hparse).
Defined.

(** C7 on a document that lists a host, "ghost", without hostvars. *)
Lemma hosts_of_lenientDoc :
  Json.get "ghost" lenientDoc_hostvars = None
  /\ exists y',
       parseData sampleUnmarshal lenientDoc loadedReceiver = (None, y')
       /\ (forall h, h ∈ hosts y' ->
             exists hostInfo,
               Json.get (FQDN h) lenientDoc_hostvars = Some (Json.Object hostInfo)
               /\ DatacenterID h = dcAttribute hostInfo)
       /\ (forall hostName, Json.get hostName lenientDoc_hostvars = None ->
             forall h, h ∈ hosts y' -> FQDN h <> hostName).
Proof.
  split; [reflexivity|].
  apply (hosts_carry_dc_attribute_unknown_hosts_skipped
           sampleUnmarshal lenientDoc loadedReceiver lenientDoc_decoded lenientDoc_meta).
  - by_evaluation.
  - reflexivity.
  - reflexivity.
Defined.

(** C9 on bytes that are no JSON and on a document without "_meta", for a
    receiver that holds an earlier load. *)
Lemma parseData_failures_on_samples :
  parseData sampleUnmarshal notJson loadedReceiver
    = (Some (LibError "encoding/json" "invalid character"), loadedReceiver)
  /\ exists err y',
       parseData sampleUnmarshal noMetaDoc loadedReceiver = (Some err, y')
       /\ hosts y' = [] /\ groups y' = [] /\ datacenters y' = []
       /\ parentMap y' = ∅
       /\ y' = resetCollections loadedReceiver.
Proof.
  split.
  - apply (proj1 (parseData_failure_keeps_or_clears sampleUnmarshal notJson loadedReceiver)).
    by_evaluation.
  - apply (proj2 (parseData_failure_keeps_or_clears sampleUnmarshal noMetaDoc loadedReceiver)
             noMetaDoc_decoded).
    + by_evaluation.
    + left. reflexivity.
Defined.

(** C2: the parent of a group is read from the mapping while the mapping is
    still being built, so it depends on the order in which the top-level keys
    are ranged over.  On scenario A, a run that visits "g1" before "g2" gives
    g2 the parent "g1"; a run that visits "g2" first gives g2 the empty
    parent, although the finished mapping sends "g2" to "g1". *)
Theorem scenarioA_parent_depends_on_range_order :
  scenarioA_g1_first ≡ₚ scenarioA_g2_first
  /\ (let y1 := snd (parseData sampleUnmarshal scenarioA sampleReceiver) in
      groups y1 = [mkGroup "g1" "" [mkHost "a.x" "g1" "dc1"]; mkGroup "g2" "g1" []]
      /\ parentMap y1 !! "g2" = Some "g1")
  /\ (let y2 := snd (parseData sampleUnmarshal_g2_first scenarioA sampleReceiver) in
      fst (parseData sampleUnmarshal_g2_first scenarioA sampleReceiver) = None
      /\ groups y2 = [mkGroup "g2" "" []; mkGroup "g1" "" [mkHost "a.x" "g1" "dc1"]]
      /\ parentMap y2 !! "g2" = Some "g1"
      /\ ~ parentsResolved y2).
Proof.
  split; [|split].
  - unfold scenarioA_g1_first, scenarioA_g2_first.
    etransitivity; [apply perm_skip, perm_swap|apply perm_swap].
  - split; by_evaluation.
  - assert (Hgroups : groups (snd (parseData sampleUnmarshal_g2_first scenarioA sampleReceiver))
             = [mkGroup "g2" "" []; mkGroup "g1" "" [mkHost "a.x" "g1" "dc1"]])
      by by_evaluation.
    assert (Hmap : parentMap (snd (parseData sampleUnmarshal_g2_first scenarioA sampleReceiver))
                     !! "g2" = Some "g1")
      by by_evaluation.
    split; [by_evaluation|]. split; [exact Hgroups|]. split; [exact Hmap|].
    intros Hres. specialize (Hres (mkGroup "g2" "" [])).
    rewrite Hgroups in Hres. cbn [Name ParentID] in Hres. rewrite Hmap in Hres.
    discriminate Hres. apply elem_of_cons. now left.
Qed.

(** ** The cache file *)

Lemma cacheFilename_sameConfig y y' :
  sameConfig y y' -> cacheFilename y' = cacheFilename y.
Proof. intros (Hn & _ & Hd & _). unfold cacheFilename. now rewrite Hn, Hd. Qed.

(** C6, as the code has it: the cache file path is a function of the cache
    directory and of the list of work group names in the order of the
    configuration (the names are not sorted).  For a cache directory in clean
    form and names without a slash it is the directory, a slash, the prefix
    yanductor_cache, an underscore, the names joined by underscores, and
    .json; receivers with the same directory and the same list of names have
    the same path. *)
Theorem cacheFilename_form y :
  cleanDir (cacheDir y) = true ->
  Forall (fun n => hasSlash n = false) (workgroupNames y) ->
  cacheFilename y
    = cacheDir y ++ "/" ++ "yanductor_cache" ++ "_"
        ++ strings_Join (workgroupNames y) "_" ++ ".json"
  /\ (forall y', cacheDir y' = cacheDir y -> workgroupNames y' = workgroupNames y ->
        cacheFilename y' = cacheFilename y).
Proof.
  intros Hdir Hnames. split.
  - unfold cacheFilename.
    apply (path_Join_dir_element (cacheDir y) _ Hdir (cacheFile_properElement _ Hnames)).
  - intros y' Hd Hn. unfold cacheFilename. now rewrite Hd, Hn.
Qed.

(** C6, as the code has it, on the sample receiver. *)
Lemma cacheFilename_of_sampleReceiver :
  cacheFilename sampleReceiver = sampleCacheFile
  /\ cacheFilename sampleReceiver
     = cacheDir sampleReceiver ++ "/" ++ "yanductor_cache" ++ "_"
         ++ strings_Join (workgroupNames sampleReceiver) "_" ++ ".json"
  /\ (forall y', cacheDir y' = cacheDir sampleReceiver ->
        workgroupNames y' = workgroupNames sampleReceiver ->
        cacheFilename y' = cacheFilename sampleReceiver).
Proof.
  split; [by_evaluation|].
  apply (cacheFilename_form sampleReceiver).
  - reflexivity.
  - repeat constructor.
Defined.

(** C6, as stated, fails: the names are joined in the order given, so the
    same names in another order give another path. *)
Lemma cacheFilename_depends_on_name_order :
  let y1 := set_workgroupNames ["web"; "db"] sampleReceiver in
  let y2 := set_workgroupNames ["db"; "web"] sampleReceiver in
  workgroupNames y1 ≡ₚ workgroupNames y2
  /\ cacheDir y1 = cacheDir y2
  /\ cacheFilename y1 = "/var/cache/xc/yanductor_cache_web_db.json"
  /\ cacheFilename y2 = "/var/cache/xc/yanductor_cache_db_web.json"
  /\ String.eqb (cacheFilename y1) (cacheFilename y2) = false.
Proof.
  split; [apply perm_swap|]. repeat split; by_evaluation.
Qed.

(** C4, as the code has it: the cache counts as fresh exactly when the stat
    succeeds and the modification time plus the TTL is not before the current
    time, or when the stat fails with an error other than "not found"; the
    check returns a boolean and no error. *)
Theorem cacheFresh_iff y w :
  cacheFresh y w = true <->
  (statFault w (cacheFilename y) = None
   /\ exists f, files w !! cacheFilename y = Some f
                /\ clock w <= ModTime f + cacheTTL y)
  \/ (exists errno, statFault w (cacheFilename y) = Some errno /\ errno <> ENOENT).
Proof.
  unfold cacheFresh, cacheExpired, os_Stat, time_Before, time_Add, time_Now.
  destruct (statFault w (cacheFilename y)) as [errno|].
  - destruct errno; simpl; split;
      try (intros _; right; eexists; split; [reflexivity|discriminate]);
      try reflexivity; try discriminate.
    intros [[Hnone _]|(errno & [= <-] & Hne)]; [discriminate|congruence].
  - destruct (files w !! cacheFilename y) as [f|]; simpl.
    + rewrite negb_true_iff, Z.ltb_ge. split.
      * intros Hle. left. split; [reflexivity|]. now exists f.
      * intros [[_ (f' & [= <-] & Hle)]|(errno & Hf & _)]; [exact Hle|discriminate].
    + split; [discriminate|].
      intros [[_ (f' & Hf & _)]|(errno & Hf & _)]; discriminate.
Qed.

(** C4, as stated, fails: a stat that is refused (EACCES) is an error other
    than "not found", and the cache counts as fresh, not as stale. *)
Lemma refused_stat_counts_as_fresh :
  fst (os_Stat sampleCacheFile forbiddenWorld)
    = inl (PathError "stat" sampleCacheFile EACCES)
  /\ os_IsNotExist (PathError "stat" sampleCacheFile EACCES) = false
  /\ fst (cacheExpired sampleReceiver forbiddenWorld) = false
  /\ cacheFresh sampleReceiver forbiddenWorld = true.
Proof. repeat split; by_evaluation. Qed.

(** ** The loader *)

Section LoaderProperties.

Variable json_Unmarshal : list Byte.byte -> error + Json.object.

(** [loadLocal] makes one call: it reads the cache file. *)
Lemma loadLocal_trace y w :
  trace (snd (loadLocal json_Unmarshal y w)) = (trace w ++ [EvReadFile (cacheFilename y)])%list.
Proof.
  unfold loadLocal, os_ReadFile.
  destruct (readFault w (cacheFilename y)); [reflexivity|].
  destruct (files w !! cacheFilename y); [|reflexivity].
  cbn zeta. destruct (parseData _ _ _). reflexivity.
Qed.

(** C10: when the cache file can be examined and its modification time plus
    the TTL is not before the current time, [Load] is [loadLocal]: the calls
    it makes are the stat and the read of the cache file, and no GET. *)
Theorem Load_within_ttl_reads_only_the_cache y w f :
  statFault w (cacheFilename y) = None ->
  files w !! cacheFilename y = Some f ->
  clock w <= ModTime f + cacheTTL y ->
  Load json_Unmarshal y w
    = loadLocal json_Unmarshal y (record (EvStat (cacheFilename y)) w)
  /\ trace (snd (Load json_Unmarshal y w))
     = (trace w ++ [EvStat (cacheFilename y); EvReadFile (cacheFilename y)])%list
  /\ (forall url, EvHttpGet url ∈ trace (snd (Load json_Unmarshal y w)) ->
        EvHttpGet url ∈ trace w).
Proof.
  intros Hfault Hfile Hfresh.
  assert (Hload : Load json_Unmarshal y w
                  = loadLocal json_Unmarshal y (record (EvStat (cacheFilename y)) w)).
  { unfold Load, cacheExpired, os_Stat. rewrite Hfault, Hfile.
    unfold time_Before, time_Add, time_Now. cbn [clock record].
    destruct (Z.ltb_spec (ModTime f + cacheTTL y) (clock w)) as [Hlt|_]; [lia|reflexivity]. }
  assert (Htrace : trace (snd (Load json_Unmarshal y w))
     = (trace w ++ [EvStat (cacheFilename y); EvReadFile (cacheFilename y)])%list).
  { rewrite Hload, loadLocal_trace. simpl. now rewrite <- app_assoc. }
  split; [exact Hload|]. split; [exact Htrace|].
  intros url. rewrite Htrace, elem_of_app, !elem_of_cons, elem_of_nil.
  intros [Hin|[Heq|[Heq|[]]]]; [exact Hin|discriminate|discriminate].
Qed.

(** What [loadRemote] does once the fetch succeeded with bytes [data]. *)
Lemma loadRemote_fetched y w resp data :
  network w (requestURL y) = inr resp -> StatusCode resp = 200 -> Body resp = inr data ->
  loadRemote json_Unmarshal y w =
    let w1 := record (EvHttpGet (requestURL y)) w in
    match parseData json_Unmarshal data y with
    | (Some err, y1) => (Some err, y1, w1)
    | (None, y1) => let '(err, w2) := saveCache data y1 w1 in (err, y1, w2)
    end.
Proof.
  intros Hnet Hstatus Hbody. unfold loadRemote, http_Get.
  rewrite Hnet, Hstatus, Hbody. simpl.
  destruct (parseData json_Unmarshal data y) as [[err|] y1]; reflexivity.
Qed.

(** A fetch that fails at the network layer leaves the receiver alone. *)
Lemma loadRemote_fetchFails y w :
  fetchFails w (requestURL y) ->
  exists err, loadRemote json_Unmarshal y w
              = (Some err, y, record (EvHttpGet (requestURL y)) w).
Proof.
  unfold loadRemote, http_Get. intros [e He|resp He Hs|resp e He Hs Hb]; rewrite He.
  - now exists e.
  - destruct (Z.eqb_spec (StatusCode resp) 200) as [Heq|_]; [contradiction|].
    simpl. eauto.
  - rewrite Hs, Hb. simpl. now exists e.
Qed.

(** C1, as the code has it: [Reload] falls back to the local cache on every
    error of [loadRemote].  After a failure at the network layer it reads and
    parses the cache file; after a successful fetch of bytes whose parse
    fails it does the same, on the receiver the failed parse left: the GET is
    followed by the read of the cache file, and the result of [Reload] is the
    result of that local load, not the parse error. *)
Theorem Reload_falls_back_after_any_remote_error y w :
  let url := requestURL y in
  let w1 := record (EvHttpGet url) w in
  (fetchFails w url -> Reload json_Unmarshal y w = loadLocal json_Unmarshal y w1)
  /\ (forall resp data err y1,
        network w url = inr resp -> StatusCode resp = 200 -> Body resp = inr data ->
        parseData json_Unmarshal data y = (Some err, y1) ->
        Reload json_Unmarshal y w = loadLocal json_Unmarshal y1 w1
        /\ trace (snd (Reload json_Unmarshal y w))
           = (trace w ++ [EvHttpGet url; EvReadFile (cacheFilename y)])%list).
Proof.
  intros url w1. split.
  - intros Hfail. destruct (loadRemote_fetchFails y w Hfail) as (err & Hremote).
    unfold Reload. now rewrite Hremote.
  - intros resp data err y1 Hnet Hstatus Hbody Hparse.
    assert (Hreload : Reload json_Unmarshal y w = loadLocal json_Unmarshal y1 w1).
    { unfold Reload. rewrite (loadRemote_fetched y w resp data Hnet Hstatus Hbody), Hparse.
      reflexivity. }
    split; [exact Hreload|].
    rewrite Hreload, loadLocal_trace. subst w1. simpl. rewrite <- app_assoc. simpl.
    pose proof (parseData_sameConfig json_Unmarshal data y) as Hc. rewrite Hparse in Hc.
    now rewrite (cacheFilename_sameConfig y y1 Hc).
Qed.

(** C3, as the code has it: when the fetch succeeds and the bytes parse, a
    failure of the cache write is returned by [loadRemote], so [Reload] goes
    on to the local cache: its result is the result of reading and parsing
    the cache file in the world the failed write left.  When that file cannot
    be read, [Reload] returns the read error, with the parsed data of the
    fetch still in the receiver. *)
Theorem Reload_after_failed_cache_write y w resp data y1 err w2 :
  network w (requestURL y) = inr resp -> StatusCode resp = 200 -> Body resp = inr data ->
  parseData json_Unmarshal data y = (None, y1) ->
  saveCache data y1 (record (EvHttpGet (requestURL y)) w) = (Some err, w2) ->
  Reload json_Unmarshal y w = loadLocal json_Unmarshal y1 w2
  /\ (forall readErr w3,
        os_ReadFile (cacheFilename y1) w2 = (inl readErr, w3) ->
        Reload json_Unmarshal y w = (Some readErr, y1, w3)).
Proof.
  intros Hnet Hstatus Hbody Hparse Hsave.
  assert (Hreload : Reload json_Unmarshal y w = loadLocal json_Unmarshal y1 w2).
  { unfold Reload. rewrite (loadRemote_fetched y w resp data Hnet Hstatus Hbody), Hparse.
    cbn zeta. rewrite Hsave. reflexivity. }
  split; [exact Hreload|].
  intros readErr w3 Hread. rewrite Hreload. unfold loadLocal. now rewrite Hread.
Qed.

(** When the cache write succeeds too, [Reload] succeeds with the parsed data. *)
Lemma Reload_success y w resp data y1 w2 :
  network w (requestURL y) = inr resp -> StatusCode resp = 200 -> Body resp = inr data ->
  parseData json_Unmarshal data y = (None, y1) ->
  saveCache data y1 (record (EvHttpGet (requestURL y)) w) = (None, w2) ->
  Reload json_Unmarshal y w = (None, y1, w2).
Proof.
  intros Hnet Hstatus Hbody Hparse Hsave.
  unfold Reload. rewrite (loadRemote_fetched y w resp data Hnet Hstatus Hbody), Hparse.
  cbn zeta. now rewrite Hsave.
Qed.

(** Without the work groups, or with an empty list of them, or without the
    URL, [New] fails before it makes any call. *)
Lemma New_missing_option_fails_without_io cfg w :
  let options := Options (BackendCfg cfg) in
  options !! "work_groups" = None \/ options !! "work_groups" = Some ""
  \/ options !! "url" = None ->
  exists msg, New json_Unmarshal cfg w = (inl (Errorf msg []), w).
Proof.
  intros options. subst options. unfold New.
  destruct (Options (BackendCfg cfg) !! "work_groups") as [wg|] eqn:Hwg.
  - destruct (String.eqb_spec wg "") as [->|Hne]; [eauto|].
    intros [Hn|[Hn|Hurl]]; [discriminate|congruence|]. rewrite Hurl. eauto.
  - eauto.
Qed.

End LoaderProperties.

(** *** The loader on the sample worlds *)

(** C10 on a cache file written 1000 time units ago, with a TTL of 3600. *)
Lemma Load_of_fresh_cache_offline :
  let y := sampleReceiver in
  let w := offlineWorld 9000 in
  Load sampleUnmarshal y w
    = loadLocal sampleUnmarshal y (record (EvStat (cacheFilename y)) w)
  /\ trace (snd (Load sampleUnmarshal y w))
     = (trace w ++ [EvStat (cacheFilename y); EvReadFile (cacheFilename y)])%list
  /\ (forall url, EvHttpGet url ∈ trace (snd (Load sampleUnmarshal y w)) ->
        EvHttpGet url ∈ trace w).
Proof.
  apply (Load_within_ttl_reads_only_the_cache sampleUnmarshal sampleReceiver
           (offlineWorld 9000) (mkFile 9000 scenarioA)).
  - reflexivity.
  - by_evaluation.
  - vm_compute; discriminate.
Defined.

(** C1, as stated, fails: the service answers 200 with bytes that do not
    parse, and [Reload] reads the cache file after the GET and returns
    success with the cached hosts instead of the parse error. *)
Lemma Reload_reads_cache_after_parse_failure :
  let w := cachedWorld 0 200 notJson in
  network w sampleURL = inr (mkResponse 200 (inr notJson))
  /\ fst (parseData sampleUnmarshal notJson loadedReceiver)
     = Some (LibError "encoding/json" "invalid character")
  /\ fst (fst (Reload sampleUnmarshal loadedReceiver w)) = None
  /\ hosts (snd (fst (Reload sampleUnmarshal loadedReceiver w)))
     = [mkHost "a.x" "g1" "dc1"]
  /\ trace (snd (Reload sampleUnmarshal loadedReceiver w))
     = [EvHttpGet sampleURL; EvReadFile sampleCacheFile].
Proof. repeat split; by_evaluation. Qed.

(** C1, as the code has it, without a network and after a parse failure. *)
Lemma Reload_fallbacks_on_samples :
  let y := loadedReceiver in
  Reload sampleUnmarshal y bareWorld
    = loadLocal sampleUnmarshal y (record (EvHttpGet (requestURL y)) bareWorld)
  /\ (let w := cachedWorld 0 200 notJson in
      Reload sampleUnmarshal y w
        = loadLocal sampleUnmarshal y (record (EvHttpGet (requestURL y)) w)
      /\ trace (snd (Reload sampleUnmarshal y w))
         = (trace w ++ [EvHttpGet (requestURL y); EvReadFile (cacheFilename y)])%list).
Proof.
  split.
  - apply (proj1 (Reload_falls_back_after_any_remote_error sampleUnmarshal
                    loadedReceiver bareWorld)).
    apply (fails_transport _ _ (LibError "net/http" "connection refused")). reflexivity.
  - apply (proj2 (Reload_falls_back_after_any_remote_error sampleUnmarshal
                    loadedReceiver (cachedWorld 0 200 notJson))
             (mkResponse 200 (inr notJson)) notJson
             (LibError "encoding/json" "invalid character") loadedReceiver);
      by_evaluation.
Defined.

(** C3, as stated, fails: the fetch succeeds and the bytes parse, the cache
    directory cannot be made, no cache file exists, and [Reload] returns the
    error of reading the cache file. *)
Lemma Reload_fails_after_failed_cache_write :
  network readOnlyWorld sampleURL = inr (mkResponse 200 (inr scenarioA))
  /\ fst (parseData sampleUnmarshal scenarioA loadedReceiver) = None
  /\ fst (fst (Reload sampleUnmarshal loadedReceiver readOnlyWorld))
     = Some (PathError "open" sampleCacheFile ENOENT)
  /\ trace (snd (Reload sampleUnmarshal loadedReceiver readOnlyWorld))
     = [EvHttpGet sampleURL; EvMkdirAll "/var/cache/xc"; EvReadFile sampleCacheFile].
Proof. repeat split; by_evaluation. Qed.

(** C3, as the code has it, in the world of the read-only cache directory. *)
Lemma Reload_after_failed_cache_write_on_sample :
  let y := loadedReceiver in
  let y1 := snd (parseData sampleUnmarshal scenarioA y) in
  let w1 := record (EvHttpGet (requestURL y)) readOnlyWorld in
  let w2 := snd (saveCache scenarioA y1 w1) in
  Reload sampleUnmarshal y readOnlyWorld = loadLocal sampleUnmarshal y1 w2
  /\ (forall readErr w3,
        os_ReadFile (cacheFilename y1) w2 = (inl readErr, w3) ->
        Reload sampleUnmarshal y readOnlyWorld = (Some readErr, y1, w3)).
Proof.
  apply (Reload_after_failed_cache_write sampleUnmarshal loadedReceiver readOnlyWorld
           (mkResponse 200 (inr scenarioA)) scenarioA _
           (Errorf "error creating cache dir: %s"
              [ArgError (PathError "mkdir" "/var/cache/xc" EROFS)]));
    by_evaluation.
Defined.

(** C5: the check of the URL misses the empty string, which the check of
    the work groups has.  With an empty URL [New] goes on to [Load]: next to a
    fresh cache file it examines and reads the file and returns a backend;
    without a cache file it examines the file, sends a GET and tries to read
    the file before it fails, and the error is that of the load. *)
Theorem New_with_empty_url_loads :
  let cfg := sampleConfig [("work_groups", "web , db"); ("url", "")] in
  Options (BackendCfg cfg) !! "url" = Some ""
  /\ (exists y, fst (New sampleUnmarshal cfg (offlineWorld 9000)) = inr y
                /\ apiURL y = "" /\ workgroupNames y = ["web"; "db"])
  /\ trace (snd (New sampleUnmarshal cfg (offlineWorld 9000)))
     = [EvStat sampleCacheFile; EvReadFile sampleCacheFile]
  /\ fst (New sampleUnmarshal cfg bareWorld)
     = inl (Errorf "error loading data: %s"
              [ArgError (PathError "open" sampleCacheFile ENOENT)])
  /\ trace (snd (New sampleUnmarshal cfg bareWorld))
     = [EvStat sampleCacheFile;
        EvHttpGet "/api/generator/rivik.ansible-inventory?projects=web,db";
        EvReadFile sampleCacheFile].
Proof.
  split; [by_evaluation|]. split.
  - eexists. split; [by_evaluation|]. split; reflexivity.
  - repeat split; by_evaluation.
Qed.

(** * Further properties of the parser *)

(** ** The loops, as functions of the document *)

Lemma appendToLastGroup_snoc hostObj gs g :
  appendToLastGroup hostObj (gs ++ [g])
  = (gs ++ [mkGroup (Name g) (ParentID g) (Hosts g ++ [hostObj])])%list.
Proof.
  induction gs as [|a gs IH]; [reflexivity|].
  cbn [app appendToLastGroup]. rewrite IH.
  destruct (gs ++ [g])%list eqn:Hgs; [|reflexivity].
  now apply app_eq_nil in Hgs as [_ [=]].
Qed.

Lemma group_eta g : mkGroup (Name g) (ParentID g) (Hosts g ++ []) = g.
Proof. destruct g. cbn. now rewrite app_nil_r. Qed.

(** One round of the host loop appends the record of the listed host, when
    there is one, to the flat list and to the group made last. *)
Lemma parseHost_effect hostvars group y host gs g :
  groups y = (gs ++ [g])%list ->
  let made := option_list (hostRecord hostvars group host) in
  let y' := parseHost hostvars group y host in
  hosts y' = (hosts y ++ made)%list
  /\ groups y' = (gs ++ [mkGroup (Name g) (ParentID g) (Hosts g ++ made)])%list
  /\ parentMap y' = parentMap y.
Proof.
  intros Hgs. unfold parseHost, hostRecord.
  assert (Hsame : hosts y = (hosts y ++ [])%list
                  /\ groups y = (gs ++ [mkGroup (Name g) (ParentID g) (Hosts g ++ [])])%list
                  /\ parentMap y = parentMap y).
  { now rewrite app_nil_r, group_eta. }
  destruct host as [| | |hostName| |]; try exact Hsame.
  destruct (Json.get hostName hostvars) as [[| | | | |hostInfo]|]; try exact Hsame.
  cbn [Json.as_map option_list]. cbv zeta. rewrite dc_read_is_dcAttribute.
  destruct (contains _ _); cbn; rewrite Hgs, appendToLastGroup_snoc; auto.
Qed.

Lemma parseHosts_effect hostvars group hostList : forall y gs g,
  groups y = (gs ++ [g])%list ->
  let made := groupHosts hostvars group hostList in
  let y' := fold_left (parseHost hostvars group) hostList y in
  hosts y' = (hosts y ++ made)%list
  /\ groups y' = (gs ++ [mkGroup (Name g) (ParentID g) (Hosts g ++ made)])%list
  /\ parentMap y' = parentMap y.
Proof.
  induction hostList as [|host hostList IH]; intros y gs g Hgs.
  - cbn. now rewrite app_nil_r, group_eta.
  - destruct (parseHost_effect hostvars group y host gs g Hgs) as (Hh & Hg & Hp).
    destruct (IH _ _ _ Hg) as (Hh' & Hg' & Hp'). cbn [fold_left].
    cbv zeta in *. rewrite Hh', Hg', Hp', Hh, Hp. cbn [Name ParentID Hosts].
    unfold groupHosts. cbn [omap list_omap].
    destruct (hostRecord hostvars group host) as [h|]; cbn [option_list];
      rewrite <- ?app_assoc; cbn; rewrite ?app_nil_r; auto.
Qed.

(** The child loop keeps every parent it finds recorded and gives the others
    the current group. *)
Lemma recordChildren_lookup group children : forall pm child,
  fold_left (recordChild group) children pm !! child
  = match pm !! child with
    | Some parent => Some parent
    | None => if existsb (isChildNamed child) children then Some group else None
    end.
Proof.
  induction children as [|v children IH]; intros pm child; cbn [fold_left existsb].
  - now destruct (pm !! child).
  - rewrite IH. unfold recordChild, isChildNamed at 2.
    destruct v as [| | |s| |]; cbn [orb]; try reflexivity.
    destruct (String.eqb_spec s child) as [->|Hne]; cbn [orb].
    + destruct (pm !! child) eqn:Hpm; [now rewrite Hpm|].
      now rewrite lookup_insert_eq.
    + destruct (pm !! s); [reflexivity|]. now rewrite lookup_insert_ne.
Qed.

(** One round of the loop over the top-level keys. *)
Lemma parseGroup_effect hostvars y entry :
  match isGroupEntry entry with
  | None => parseGroup hostvars y entry = y
  | Some (group, groupMap) =>
      let pm := fold_left (recordChild group) (listedChildren groupMap) (parentMap y) in
      let made := groupHosts hostvars group (listedHosts groupMap) in
      let y' := parseGroup hostvars y entry in
      hosts y' = (hosts y ++ made)%list
      /\ groups y' = (groups y ++ [mkGroup group (default "" (pm !! group)) made])%list
      /\ parentMap y' = pm
  end.
Proof.
  destruct entry as [group groupData]. unfold isGroupEntry, parseGroup.
  destruct groupData as [| | | | |groupMap];
    try (destruct (String.eqb group "_meta"); reflexivity).
  destruct (String.eqb group "_meta"); [reflexivity|].
  cbn [Json.as_map]. cbv zeta. unfold listedChildren, listedHosts.
  set (y1 := match Json.as_slice (Json.get "children" groupMap) with
             | Some children =>
                 set_parentMap (fold_left (recordChild group) children (parentMap y)) y
             | None => y
             end).
  assert (Hy1 : hosts y1 = hosts y /\ groups y1 = groups y
                /\ parentMap y1 = fold_left (recordChild group)
                     (default [] (Json.as_slice (Json.get "children" groupMap))) (parentMap y)).
  { subst y1. destruct (Json.as_slice (Json.get "children" groupMap)); auto. }
  destruct Hy1 as (Hh1 & Hg1 & Hp1). rewrite <- Hp1.
  set (groupObj := mkGroup group (default "" (parentMap y1 !! group)) []).
  set (y2 := set_groups (groups y1 ++ [groupObj]) y1).
  destruct (Json.as_slice (Json.get "hosts" groupMap)) as [hostList|]; cbn [default].
  - destruct (parseHosts_effect hostvars group hostList y2 (groups y1) groupObj eq_refl)
      as (Hh & Hg & Hp).
    cbv zeta in Hh, Hg, Hp. rewrite Hh, Hg, Hp. subst y2 groupObj. cbn.
    now rewrite Hh1, Hg1.
  - subst y2 groupObj. cbn. now rewrite Hh1, Hg1, app_nil_r.
Qed.

Lemma parseGroups_hosts hostvars rawData : forall y,
  hosts (fold_left (parseGroup hostvars) rawData y)
  = (hosts y ++ documentHosts hostvars rawData)%list.
Proof.
  unfold documentHosts.
  induction rawData as [|entry rawData IH]; intros y; cbn [fold_left].
  - cbn. now rewrite app_nil_r.
  - rewrite IH, bind_cons, app_assoc. f_equal. unfold entryHosts.
    pose proof (parseGroup_effect hostvars y entry) as Heff. cbv zeta in Heff.
    destruct (isGroupEntry entry) as [[group groupMap]|].
    + apply Heff.
    + now rewrite Heff, app_nil_r.
Qed.

Lemma parseGroups_outline hostvars rawData : forall y,
  groupOutline <$> groups (fold_left (parseGroup hostvars) rawData y)
  = ((groupOutline <$> groups y)
     ++ (entryOutline hostvars <$> groupEntries rawData))%list.
Proof.
  unfold groupEntries.
  induction rawData as [|entry rawData IH]; intros y; cbn [fold_left].
  - cbn. now rewrite app_nil_r.
  - rewrite IH. cbn [omap list_omap].
    pose proof (parseGroup_effect hostvars y entry) as Heff. cbv zeta in Heff.
    destruct (isGroupEntry entry) as [[group groupMap]|].
    + destruct Heff as (_ & -> & _). rewrite fmap_app, fmap_cons, <- app_assoc.
      reflexivity.
    + now rewrite Heff.
Qed.

Lemma isGroupEntry_Some entry group groupMap :
  isGroupEntry entry = Some (group, groupMap) ->
  entry = (group, Json.Object groupMap) /\ group <> "_meta".
Proof.
  destruct entry as [key value]. unfold isGroupEntry.
  destruct value; try discriminate.
  destruct (String.eqb_spec key "_meta"); [discriminate|].
  intros [= <- <-]. now split.
Qed.

Lemma parseGroups_parentMap hostvars rawData child : forall y,
  parentMap (fold_left (parseGroup hostvars) rawData y) !! child
  = match parentMap y !! child with
    | Some parent => Some parent
    | None => firstParent rawData child
    end.
Proof.
  unfold firstParent.
  induction rawData as [|entry rawData IH]; intros y; cbn [fold_left List.find].
  - now destruct (parentMap y !! child).
  - rewrite IH. unfold listsChild at 2.
    pose proof (parseGroup_effect hostvars y entry) as Heff. cbv zeta in Heff.
    destruct (isGroupEntry entry) as [[group groupMap]|] eqn:Hentry.
    + destruct Heff as (_ & _ & ->). rewrite recordChildren_lookup.
      apply isGroupEntry_Some in Hentry as [-> _].
      destruct (parentMap y !! child); [reflexivity|].
      destruct (existsb _ _); reflexivity.
    + now rewrite Heff.
Qed.

Lemma groupHosts_GroupID hostvars group hostList h :
  h ∈ groupHosts hostvars group hostList -> GroupID h = group.
Proof.
  unfold groupHosts. rewrite list_elem_of_omap. intros (host & _ & Hrec).
  unfold hostRecord in Hrec. destruct host as [| | |hostName| |]; try discriminate.
  destruct (Json.get hostName hostvars) as [[| | | | |hostInfo]|]; try discriminate.
  now inversion Hrec.
Qed.

Lemma documentHosts_outline hostvars rawData :
  documentHosts hostvars rawData
  = mjoin (snd <$> (entryOutline hostvars <$> groupEntries rawData)).
Proof.
  unfold documentHosts, groupEntries.
  induction rawData as [|entry rawData IH]; [reflexivity|].
  rewrite bind_cons, IH. cbn [omap list_omap]. unfold entryHosts.
  destruct (isGroupEntry entry) as [[group groupMap]|]; reflexivity.
Qed.

(** A parent recorded for a group's name stays recorded to the end, so the
    parent a group record got when it was made is the one the map ends with,
    unless it got none. *)
Lemma parseGroups_ParentID hostvars rawData : forall y,
  (forall g, g ∈ groups y -> ParentID g <> "" ->
     parentMap y !! Name g = Some (ParentID g)) ->
  forall g, g ∈ groups (fold_left (parseGroup hostvars) rawData y) ->
    ParentID g <> "" ->
    parentMap (fold_left (parseGroup hostvars) rawData y) !! Name g = Some (ParentID g).
Proof.
  induction rawData as [|entry rawData IH]; intros y Hy; [exact Hy|].
  cbn [fold_left]. apply IH. clear IH.
  pose proof (parseGroup_effect hostvars y entry) as Heff. cbv zeta in Heff.
  destruct (isGroupEntry entry) as [[group groupMap]|]; [|now rewrite Heff].
  destruct Heff as (_ & Hg & Hp). intros g. rewrite Hg, Hp, elem_of_app.
  intros [Hin|Hin] Hne.
  - rewrite recordChildren_lookup, (Hy g Hin Hne). reflexivity.
  - apply list_elem_of_singleton in Hin as ->. cbn [Name ParentID] in *.
    destruct (fold_left _ _ _ !! group) as [parent|]; [reflexivity|now cbn in Hne].
Qed.

Section ParsedDocument.

Variable json_Unmarshal : list Byte.byte -> error + Json.object.
Variables (data : list Byte.byte) (y : Yanductor).
Variables (rawData meta hostvars : Json.object).

Hypothesis decoded : json_Unmarshal data = inr rawData.
Hypothesis has_meta : Json.as_map (Json.get "_meta" rawData) = Some meta.
Hypothesis has_hostvars : Json.as_map (Json.get "hostvars" meta) = Some hostvars.

Lemma parseData_decoded :
  parseData json_Unmarshal data y
  = (None, fold_left (parseGroup hostvars) rawData (resetCollections y)).
Proof. unfold parseData. now rewrite decoded, has_meta, has_hostvars. Qed.

(** X1: the host records of a parsed document are those of its groups in
    range order, and within a group those of its "hosts" list in order: one
    for every entry of the list that is a string with a map in the hostvars
    table, also when a name is listed more than once. *)
Theorem parsed_hosts_are_the_listed_known_hosts :
  hosts (snd (parseData json_Unmarshal data y)) = documentHosts hostvars rawData.
Proof.
  rewrite parseData_decoded. cbn [snd]. now rewrite parseGroups_hosts.
Qed.

(** X2: the group records of a parsed document are, in range order, one for
    every top-level key other than "_meta" whose value is a map; each carries
    that key as its name and the records of the hosts its list names. *)
Theorem parsed_groups_follow_the_group_entries :
  groupOutline <$> groups (snd (parseData json_Unmarshal data y))
  = entryOutline hostvars <$> groupEntries rawData.
Proof.
  rewrite parseData_decoded. cbn [snd]. now rewrite parseGroups_outline.
Qed.

(** X3: the flat host list is the concatenation of the host lists of the
    group records, and every host in the list of a group record has that
    group's name as its GroupID. *)
Theorem parsed_hosts_are_the_hosts_of_the_groups :
  let y' := snd (parseData json_Unmarshal data y) in
  hosts y' = mjoin (Hosts <$> groups y')
  /\ (forall g h, g ∈ groups y' -> h ∈ Hosts g -> GroupID h = Name g).
Proof.
  cbv zeta. rewrite parseData_decoded. cbn [snd].
  pose proof (parseGroups_outline hostvars rawData (resetCollections y)) as Hout.
  cbn [resetCollections set_parentMap set_datacenters set_groups set_hosts groups
       fmap list_fmap app] in Hout.
  split.
  - rewrite parseGroups_hosts, documentHosts_outline. cbn [hosts resetCollections
      set_parentMap set_datacenters set_groups set_hosts app].
    rewrite <- Hout, <- list_fmap_compose. reflexivity.
  - intros g h Hg Hh.
    assert (Hin : groupOutline g ∈ entryOutline hostvars <$> groupEntries rawData).
    { rewrite <- Hout. now apply list_elem_of_fmap_2. }
    apply list_elem_of_fmap in Hin as ([group groupMap] & Heq & _).
    unfold groupOutline, entryOutline in Heq. cbn [fst snd] in Heq.
    injection Heq as Hname Hhosts. rewrite Hname. rewrite Hhosts in Hh.
    exact (groupHosts_GroupID _ _ _ _ Hh).
Qed.

(** X4: after a parse the parent map sends a name to the first group, in
    range order, that names it among its "children", and has no entry for a
    name that no group names. *)
Theorem parsed_parentMap_is_the_first_parent child :
  parentMap (snd (parseData json_Unmarshal data y)) !! child = firstParent rawData child.
Proof.
  rewrite parseData_decoded. cbn [snd]. rewrite parseGroups_parentMap.
  cbn. now rewrite lookup_empty.
Qed.

(** X5: a group record never carries a wrong parent: when its ParentID is
    not empty, it is the parent the finished map gives the group's name, the
    first group in range order that names it among its children. *)
Theorem parsed_ParentID_is_empty_or_the_first_parent g :
  g ∈ groups (snd (parseData json_Unmarshal data y)) ->
  ParentID g <> "" ->
  parentMap (snd (parseData json_Unmarshal data y)) !! Name g = Some (ParentID g)
  /\ firstParent rawData (Name g) = Some (ParentID g).
Proof.
  intros Hg Hne.
  assert (Hmap : parentMap (snd (parseData json_Unmarshal data y)) !! Name g
                 = Some (ParentID g)).
  { revert Hg Hne. rewrite parseData_decoded. cbn [snd].
    apply parseGroups_ParentID. intros g0 Hin. now apply elem_of_nil in Hin. }
  split; [exact Hmap|].
  rewrite <- Hmap. symmetry. rewrite parseData_decoded. cbn [snd].
  rewrite parseGroups_parentMap. cbn. now rewrite lookup_empty.
Qed.

End ParsedDocument.

(** * Further properties of the loader *)

Lemma resetCollections_sameSettings y y' :
  sameSettings y y' -> resetCollections y' = resetCollections y.
Proof.
  destruct y, y'. unfold sameSettings, sameConfig. cbn.
  intros [(-> & -> & -> & ->) ->]. reflexivity.
Qed.

Lemma sameSettings_refl y : sameSettings y y.
Proof. repeat split. Qed.

Lemma sameSettings_reset y : sameSettings y (resetCollections y).
Proof. repeat split. Qed.

Lemma sameSettings_trans y1 y2 y3 :
  sameSettings y1 y2 -> sameSettings y2 y3 -> sameSettings y1 y3.
Proof.
  unfold sameSettings, sameConfig.
  intros [(? & ? & ? & ?) ?] [(? & ? & ? & ?) ?]. repeat split; congruence.
Qed.

Lemma parseHost_sameSettings hostvars y0 group y host :
  sameSettings y0 y -> sameSettings y0 (parseHost hostvars group y host).
Proof.
  unfold parseHost. intros Hc.
  destruct host as [| | |hostName| |]; try exact Hc.
  destruct (Json.as_map (Json.get hostName hostvars)); [|exact Hc].
  cbn zeta. destruct (contains _ _); exact Hc.
Qed.

(** The calls on the file system do not look at the trace. *)
Lemma os_ReadFile_record name e w :
  os_ReadFile name (record e w)
  = (fst (os_ReadFile name w), record (EvReadFile name) (record e w)).
Proof.
  unfold os_ReadFile. cbn [readFault files record].
  destruct (readFault w name); [reflexivity|]. now destruct (files w !! name).
Qed.

Lemma os_ReadFile_files name w : files (snd (os_ReadFile name w)) = files w.
Proof.
  unfold os_ReadFile. destruct (readFault w name); [reflexivity|].
  now destruct (files w !! name).
Qed.

Section LoaderExtras.

Variable json_Unmarshal : list Byte.byte -> error + Json.object.

Lemma parseData_sameSettings data y :
  sameSettings y (snd (parseData json_Unmarshal data y)).
Proof.
  unfold parseData. destruct (json_Unmarshal data) as [err|rawData]; [apply sameSettings_refl|].
  destruct (Json.as_map (Json.get "_meta" rawData)) as [meta|]; [|apply sameSettings_reset].
  destruct (Json.as_map (Json.get "hostvars" meta)) as [hostvars|]; [|apply sameSettings_reset].
  apply fold_left_invariant; [|apply sameSettings_reset].
  intros y1 entry. apply (parseGroup_invariant (sameSettings y)); try (intros; assumption).
  intros; now apply parseHost_sameSettings.
Qed.

Lemma parseData_settings_only data y ya rawData :
  json_Unmarshal data = inr rawData ->
  sameSettings y ya ->
  parseData json_Unmarshal data ya = parseData json_Unmarshal data y.
Proof.
  intros Hdec Hsame. unfold parseData. rewrite Hdec.
  now rewrite (resetCollections_sameSettings y ya Hsame).
Qed.

(** X6: what a parse of decodable bytes leaves in the receiver depends on
    the bytes and on the settings of the receiver only: nothing of the hosts,
    groups, datacenters and parents held before is left. *)
Theorem parseData_forgets_the_collections data y ya rawData :
  json_Unmarshal data = inr rawData ->
  sameSettings y ya ->
  parseData json_Unmarshal data ya = parseData json_Unmarshal data y.
Proof. exact (parseData_settings_only data y ya rawData). Qed.



(** [loadLocal], by what the read of the cache file returns. *)
Lemma loadLocal_read y w :
  loadLocal json_Unmarshal y w
  = match fst (os_ReadFile (cacheFilename y) w) with
    | inl err => (Some err, y, snd (os_ReadFile (cacheFilename y) w))
    | inr cached =>
        (fst (parseData json_Unmarshal cached y), snd (parseData json_Unmarshal cached y),
         snd (os_ReadFile (cacheFilename y) w))
    end.
Proof.
  unfold loadLocal. destruct (os_ReadFile (cacheFilename y) w) as [[err|cached] w1];
    cbn [fst snd]; [reflexivity|].
  now destruct (parseData json_Unmarshal cached y).
Qed.

Lemma loadLocal_files y w : files (snd (loadLocal json_Unmarshal y w)) = files w.
Proof.
  rewrite loadLocal_read.
  destruct (fst (os_ReadFile (cacheFilename y) w)); apply os_ReadFile_files.
Qed.

Lemma loadLocal_sameSettings y w :
  sameSettings y (snd (fst (loadLocal json_Unmarshal y w))).
Proof.
  rewrite loadLocal_read.
  destruct (fst (os_ReadFile (cacheFilename y) w)); cbn [fst snd];
    [apply sameSettings_refl|apply parseData_sameSettings].
Qed.

(** The world a successful cache write leaves. *)
Lemma saveCache_ok data y w w1 :
  saveCache data y w = (None, w1) ->
  w1 = set_files (<[cacheFilename y := mkFile (clock w) data]> (files w))
         (record (EvWriteFile (cacheFilename y) data) (record (EvMkdirAll (cacheDir y)) w)).
Proof.
  unfold saveCache, os_MkdirAll, os_WriteFile.
  destruct (mkdirFault w (cacheDir y)); [discriminate|]. cbn [record writeFault files clock].
  destruct (writeFault w (cacheFilename y)) as [[errno [part|]]|]; try discriminate.
  now intros [= <-].
Qed.

(** X8: a cache write that succeeds stores the bytes as they are, stamped
    with the current time, and a local load that can read the file then
    parses exactly these bytes. *)
Theorem saveCache_then_loadLocal data y w w1 :
  saveCache data y w = (None, w1) ->
  files w1 !! cacheFilename y = Some (mkFile (clock w) data)
  /\ (readFault w (cacheFilename y) = None ->
      loadLocal json_Unmarshal y w1
      = (fst (parseData json_Unmarshal data y), snd (parseData json_Unmarshal data y),
         record (EvReadFile (cacheFilename y)) w1)).
Proof.
  intros ->%saveCache_ok. cbn [files set_files]. split; [apply lookup_insert_eq|].
  intros Hread. rewrite loadLocal_read. unfold os_ReadFile.
  cbn [readFault files set_files record]. rewrite Hread, lookup_insert_eq. reflexivity.
Qed.




(** After a GET that failed at the network layer. *)
Lemma Reload_fetchFails y w :
  fetchFails w (requestURL y) ->
  Reload json_Unmarshal y w
  = loadLocal json_Unmarshal y (record (EvHttpGet (requestURL y)) w).
Proof.
  intros Hfail. unfold Reload, loadRemote, http_Get.
  destruct Hfail as [e He|resp He Hs|resp e He Hs Hb]; rewrite He.
  - reflexivity.
  - destruct (Z.eqb_spec (StatusCode resp) 200) as [Heq|_]; [contradiction|reflexivity].
  - now rewrite Hs, Hb.
Qed.

(** X10: when the fetch fails at the network layer, [Reload] leaves every
    file as it was; with a cache file that can be read it returns what the
    parse of the cached bytes returns, and without one it returns the error
    of the read and leaves the receiver untouched. *)
Theorem Reload_offline_serves_the_cache_or_fails y w :
  fetchFails w (requestURL y) ->
  files (snd (Reload json_Unmarshal y w)) = files w
  /\ match fst (os_ReadFile (cacheFilename y) w) with
     | inl err => fst (Reload json_Unmarshal y w) = (Some err, y)
     | inr cached => fst (Reload json_Unmarshal y w) = parseData json_Unmarshal cached y
     end.
Proof.
  intros Hfail. rewrite (Reload_fetchFails y w Hfail). split.
  - now rewrite loadLocal_files.
  - rewrite loadLocal_read, os_ReadFile_record. cbn [fst].
    destruct (fst (os_ReadFile (cacheFilename y) w)) as [err|cached]; cbn [fst];
      [reflexivity|]. now destruct (parseData json_Unmarshal cached y).
Qed.

(** The calls of [Reload], with the bytes it hands to the cache write. *)
Lemma Reload_trace y w :
  exists written calls,
    trace (snd (Reload json_Unmarshal y w))
    = (trace w ++ EvHttpGet (requestURL y) :: calls)%list
    /\ reloadCalls (cacheDir y) (cacheFilename y) written calls
    /\ (forall data, written = Some data ->
          exists resp, network w (requestURL y) = inr resp /\ StatusCode resp = 200
                       /\ Body resp = inr data
                       /\ fst (parseData json_Unmarshal data y) = None).
Proof.
  assert (Hfallback : forall y1, sameConfig y y1 ->
            trace (snd (loadLocal json_Unmarshal y1 (record (EvHttpGet (requestURL y)) w)))
            = (trace w ++ [EvHttpGet (requestURL y); EvReadFile (cacheFilename y)])%list).
  { intros y1 Hc. rewrite loadLocal_trace, (cacheFilename_sameConfig y y1 Hc).
    cbn [trace record]. now rewrite <- app_assoc. }
  unfold Reload, loadRemote, http_Get.
  destruct (network w (requestURL y)) as [e|resp] eqn:Hnet.
  { exists None, [EvReadFile (cacheFilename y)].
    split; [apply (Hfallback y), sameConfig_refl|]. split; [constructor|discriminate]. }
  destruct (Z.eqb_spec (StatusCode resp) 200) as [Hs|Hs]; cbn [negb].
  2:{ exists None, [EvReadFile (cacheFilename y)].
      split; [apply (Hfallback y), sameConfig_refl|]. split; [constructor|discriminate]. }
  destruct (Body resp) as [e|data] eqn:Hbody.
  { exists None, [EvReadFile (cacheFilename y)].
    split; [apply (Hfallback y), sameConfig_refl|]. split; [constructor|discriminate]. }
  pose proof (parseData_sameConfig json_Unmarshal data y) as Hc.
  destruct (parseData json_Unmarshal data y) as [[err|] y1] eqn:Hparse; cbn [snd] in Hc.
  { exists None, [EvReadFile (cacheFilename y)].
    split; [apply (Hfallback y1), Hc|]. split; [constructor|discriminate]. }
  assert (Hfetched : forall data', Some data = Some data' ->
            exists resp', (inr resp : error + Response) = inr resp'
                          /\ StatusCode resp' = 200
                          /\ Body resp' = inr data'
                          /\ fst (parseData json_Unmarshal data' y) = None).
  { intros data' [= <-]. exists resp. now rewrite Hparse. }
  pose proof (cacheFilename_sameConfig y y1 Hc) as Hname.
  destruct Hc as (_ & _ & Hdir & _).
  unfold saveCache, os_MkdirAll, os_WriteFile. rewrite Hname, Hdir.
  cbn [mkdirFault writeFault record files clock].
  destruct (mkdirFault w (cacheDir y)); cbv beta iota zeta.
  { exists (Some data), [EvMkdirAll (cacheDir y); EvReadFile (cacheFilename y)].
    split; [|split; [constructor|exact Hfetched]].
    rewrite loadLocal_trace, Hname. cbn [trace record]. now rewrite <- !app_assoc. }
  cbn [writeFault files clock record].
  destruct (writeFault w (cacheFilename y)) as [[errno [part|]]|]; cbv beta iota zeta.
  - exists (Some data), [EvMkdirAll (cacheDir y); EvWriteFile (cacheFilename y) data;
                         EvReadFile (cacheFilename y)].
    split; [|split; [constructor|exact Hfetched]].
    rewrite loadLocal_trace, Hname. cbn [trace record set_files]. now rewrite <- !app_assoc.
  - exists (Some data), [EvMkdirAll (cacheDir y); EvWriteFile (cacheFilename y) data;
                         EvReadFile (cacheFilename y)].
    split; [|split; [constructor|exact Hfetched]].
    rewrite loadLocal_trace, Hname. cbn [trace record set_files]. now rewrite <- !app_assoc.
  - exists (Some data), [EvMkdirAll (cacheDir y); EvWriteFile (cacheFilename y) data].
    split; [|split; [constructor|exact Hfetched]].
    cbn [snd trace record set_files]. now rewrite <- !app_assoc.
Qed.

(** X11: [Reload] sends exactly one GET, to the URL of the receiver, and
    afterwards only reads the cache file, or makes the cache directory and
    then reads or writes the cache file; what it writes are the bytes of a
    response with status 200 that parsed, as they came. *)
Theorem Reload_calls y w :
  exists written calls,
    trace (snd (Reload json_Unmarshal y w))
    = (trace w ++ EvHttpGet (requestURL y) :: calls)%list
    /\ reloadCalls (cacheDir y) (cacheFilename y) written calls
    /\ (forall data, written = Some data ->
          exists resp, network w (requestURL y) = inr resp /\ StatusCode resp = 200
                       /\ Body resp = inr data
                       /\ fst (parseData json_Unmarshal data y) = None).
Proof. exact (Reload_trace y w). Qed.




Lemma loadRemote_sameSettings y w :
  sameSettings y (snd (fst (loadRemote json_Unmarshal y w))).
Proof.
  unfold loadRemote, http_Get.
  destruct (network w (requestURL y)) as [e|resp]; [apply sameSettings_refl|].
  destruct (negb (StatusCode resp =? 200)); [apply sameSettings_refl|].
  destruct (Body resp) as [e|data]; [apply sameSettings_refl|].
  pose proof (parseData_sameSettings data y) as Hs.
  destruct (parseData json_Unmarshal data y) as [[err|] y1]; [exact Hs|].
  now destruct (saveCache data y1 _).
Qed.

Lemma Reload_sameSettings y w :
  sameSettings y (snd (fst (Reload json_Unmarshal y w))).
Proof.
  unfold Reload. pose proof (loadRemote_sameSettings y w) as Hs.
  destruct (loadRemote json_Unmarshal y w) as [[[err|] y1] w1]; cbn [fst snd] in *;
    [|exact Hs].
  exact (sameSettings_trans _ _ _ Hs (loadLocal_sameSettings y1 w1)).
Qed.

Lemma Load_sameSettings y w :
  sameSettings y (snd (fst (Load json_Unmarshal y w))).
Proof.
  unfold Load. destruct (cacheExpired y w) as [[|] w1];
    [apply Reload_sameSettings|apply loadLocal_sameSettings].
Qed.

(** X13: [Load] and [Reload] change the hosts, groups, datacenters and the
    parent map only: the work group names, the TTL, the cache directory, the
    URL and the work group collection are after the call what they were
    before, whether the call fails or not. *)
Theorem Load_and_Reload_keep_the_settings y w :
  sameSettings y (snd (fst (Load json_Unmarshal y w)))
  /\ sameSettings y (snd (fst (Reload json_Unmarshal y w))).
Proof. split; [apply Load_sameSettings|apply Reload_sameSettings]. Qed.

(** X14: a backend that [New] returns has the names split from the
    "work_groups" option, which is not empty, the URL of the "url" option,
    the TTL and the cache directory of the configuration, and no work group
    records. *)
Theorem New_returns_the_configured_backend cfg w y w' :
  New json_Unmarshal cfg w = (inr y, w') ->
  exists wgString url,
    Options (BackendCfg cfg) !! "work_groups" = Some wgString /\ wgString <> ""
    /\ Options (BackendCfg cfg) !! "url" = Some url
    /\ workgroupNames y = splitExpr_Split wgString /\ apiURL y = url
    /\ cacheTTL y = CacheTTL cfg /\ cacheDir y = CacheDir cfg
    /\ workgroups y = [].
Proof.
  unfold New.
  destruct (Options (BackendCfg cfg) !! "work_groups") as [wgString|]; [|discriminate].
  destruct (String.eqb_spec wgString "") as [|Hne]; [discriminate|].
  destruct (Options (BackendCfg cfg) !! "url") as [url|]; [|discriminate].
  set (y0 := set_apiURL url _).
  pose proof (Load_sameSettings y0 w) as Hs.
  destruct (Load json_Unmarshal y0 w) as [[[err|] y1] w1]; [discriminate|].
  intros [= <- <-]. cbn [fst snd] in Hs.
  destruct Hs as [(Hn & Ht & Hd & Hu) Hw].
  exists wgString, url. now rewrite Hn, Ht, Hd, Hu, Hw.
Qed.

(** X15: without a cache file, or with one whose modification time plus the
    TTL is before the current time, [Load] is [Reload] after the stat: it
    sends the GET. *)
Theorem Load_of_absent_or_stale_cache_reloads y w :
  statFault w (cacheFilename y) = None ->
  match files w !! cacheFilename y with
  | None => True
  | Some f => ModTime f + cacheTTL y < clock w
  end ->
  Load json_Unmarshal y w
  = Reload json_Unmarshal y (record (EvStat (cacheFilename y)) w).
Proof.
  intros Hfault Hstale. unfold Load, cacheExpired, os_Stat. rewrite Hfault.
  destruct (files w !! cacheFilename y) as [f|]; [|reflexivity].
  unfold time_Before, time_Add, time_Now. cbn [clock record ModTime].
  now apply Z.ltb_lt in Hstale as ->.
Qed.

End LoaderExtras.

(** * Further properties of the construction *)

Lemma list_ascii_of_string_append a b :
  list_ascii_of_string (a ++ b) = (list_ascii_of_string a ++ list_ascii_of_string b)%list.
Proof.
  induction a as [|c a IH]; [reflexivity|].
  change (String c a ++ b) with (String c (a ++ b)).
  cbn [list_ascii_of_string app]. now rewrite IH.
Qed.

Lemma isSpace_not_comma c : isSpace c = true -> Ascii.eqb c "," = false.
Proof.
  destruct (Ascii.eqb_spec c ",") as [->|]; [|reflexivity]. now vm_compute.
Qed.

(** The scan over a name, over the white space before a comma, and over the
    white space after one. *)
Lemma splitCommas_name n rest : 
  forallb (fun c => negb (Ascii.eqb c ",") && negb (isSpace c)) n = true ->
  forall field afterSep,
    splitCommas (n ++ rest) field [] afterSep
    = match n with
      | [] => splitCommas rest field [] afterSep
      | _ => splitCommas rest (field ++ n) [] false
      end.
Proof.
  induction n as [|c n IH]; [reflexivity|]. cbn [forallb app splitCommas].
  rewrite !andb_true_iff, !negb_true_iff. intros [[-> ->] Hn] field afterSep.
  rewrite (IH Hn). cbn [app]. destruct n; [reflexivity|].
  now rewrite <- app_assoc.
Qed.

Lemma splitCommas_before ws rest field :
  forallb isSpace ws = true ->
  forall pending afterSep,
    afterSep = false \/ (field = [] /\ pending = []) ->
    splitCommas (ws ++ ","%char :: rest)%list field pending afterSep
    = string_of_list_ascii field :: splitCommas rest [] [] true.
Proof.
  induction ws as [|c ws IH]; cbn [forallb app splitCommas]; [reflexivity|].
  rewrite andb_true_iff. intros [Hc Hws] pending afterSep Hstate.
  rewrite (isSpace_not_comma c Hc), Hc.
  destruct Hstate as [->|[-> ->]].
  - apply (IH Hws). now left.
  - destruct afterSep; apply (IH Hws); auto.
Qed.

Lemma splitCommas_after ws rest :
  forallb isSpace ws = true ->
  splitCommas (ws ++ rest) [] [] true = splitCommas rest [] [] true.
Proof.
  induction ws as [|c ws IH]; cbn [forallb app splitCommas]; [reflexivity|].
  rewrite andb_true_iff. intros [Hc Hws]. rewrite (isSpace_not_comma c Hc), Hc.
  exact (IH Hws).
Qed.

Lemma splitCommas_join before after names :
  allSpace before = true -> allSpace after = true ->
  Forall (fun n => plainName n = true) names -> names <> [] ->
  forall afterSep,
    splitCommas (list_ascii_of_string (String.concat (before ++ "," ++ after) names))
      [] [] afterSep
    = names.
Proof.
  intros Hb Ha Hnames. induction Hnames as [|n names Hn Hnames IH]; [congruence|].
  intros _ afterSep. destruct names as [|n2 names].
  - cbn [String.concat]. rewrite <- (app_nil_r (list_ascii_of_string n)).
    rewrite (splitCommas_name _ [] Hn). 
    destruct (list_ascii_of_string n) eqn:Hchars; cbn [splitCommas app].
    + destruct n; [reflexivity|discriminate].
    + now rewrite app_nil_r, <- Hchars, string_of_list_ascii_of_string.
  - change (String.concat (before ++ "," ++ after) (n :: n2 :: names))
      with (n ++ (before ++ "," ++ after) ++ String.concat (before ++ "," ++ after) (n2 :: names)).
    rewrite !list_ascii_of_string_append. change (list_ascii_of_string ",") with [","%char].
    rewrite <- !app_assoc. cbn [app]. rewrite (splitCommas_name _ _ Hn).
    assert (Hrest : splitCommas
              (list_ascii_of_string after
               ++ list_ascii_of_string (String.concat (before ++ "," ++ after) (n2 :: names)))
              [] [] true = n2 :: names).
    { rewrite (splitCommas_after _ _ Ha). now apply IH. }
    destruct (list_ascii_of_string n) eqn:Hchars.
    + rewrite (splitCommas_before _ _ [] Hb) by auto. rewrite Hrest.
      destruct n; [reflexivity|discriminate].
    + rewrite (splitCommas_before _ _ _ Hb) by auto. rewrite Hrest.
      cbn [app]. now rewrite <- Hchars, string_of_list_ascii_of_string.
Qed.

(** X16: the split of the "work_groups" option gives back the names that
    were joined: for names without comma and white space, joined by a comma
    with any white space before and after it, the split of the joined string
    is the list of the names (one name at least; empty names are kept). *)
Theorem splitExpr_Split_of_joined_names before after names :
  allSpace before = true -> allSpace after = true ->
  Forall (fun n => plainName n = true) names -> names <> [] ->
  splitExpr_Split (strings_Join names (before ++ "," ++ after)) = names.
Proof.
  intros Hb Ha Hnames Hne. unfold splitExpr_Split, strings_Join.
  now apply splitCommas_join.
Qed.

(** X17: [contains] says whether the slice holds a datacenter of the name. *)
Theorem contains_iff_a_datacenter_has_the_name slice item :
  contains slice item = true <-> exists dc, dc ∈ slice /\ DatacenterName dc = item.
Proof.
  rewrite contains_spec, list_elem_of_fmap. split; intros (dc & H1 & H2); eauto.
Qed.

(** * The further properties on the samples *)

(** X1 on a document whose groups g1 and g2 both list the host a.x. *)
Lemma hosts_of_sharedDoc :
  documentHosts sharedDoc_hostvars sharedDoc_decoded
    = [mkHost "a.x" "g1" "dc1"; mkHost "a.x" "g2" "dc1"]
  /\ hosts (snd (parseData sharedUnmarshal sharedDoc loadedReceiver))
     = documentHosts sharedDoc_hostvars sharedDoc_decoded.
Proof.
  split; [reflexivity|].
  apply (parsed_hosts_are_the_listed_known_hosts sharedUnmarshal sharedDoc loadedReceiver
           sharedDoc_decoded sharedDoc_meta sharedDoc_hostvars).
  - by_evaluation.
  - reflexivity.
  - reflexivity.
Defined.

(** X2 on the same document: the groups are g1, g2 and g3. *)
Lemma groups_of_sharedDoc :
  fst <$> groupEntries sharedDoc_decoded = ["g1"; "g2"; "g3"]
  /\ groupOutline <$> groups (snd (parseData sharedUnmarshal sharedDoc loadedReceiver))
     = entryOutline sharedDoc_hostvars <$> groupEntries sharedDoc_decoded.
Proof.
  split; [reflexivity|].
  apply (parsed_groups_follow_the_group_entries sharedUnmarshal sharedDoc loadedReceiver
           sharedDoc_decoded sharedDoc_meta sharedDoc_hostvars).
  - by_evaluation.
  - reflexivity.
  - reflexivity.
Defined.

(** X3 on the same document. *)
Lemma hosts_of_the_groups_of_sharedDoc :
  let y' := snd (parseData sharedUnmarshal sharedDoc loadedReceiver) in
  hosts y' = mjoin (Hosts <$> groups y')
  /\ (forall g h, g ∈ groups y' -> h ∈ Hosts g -> GroupID h = Name g).
Proof.
  apply (parsed_hosts_are_the_hosts_of_the_groups sharedUnmarshal sharedDoc loadedReceiver
           sharedDoc_decoded sharedDoc_meta sharedDoc_hostvars).
  - by_evaluation.
  - reflexivity.
  - reflexivity.
Defined.

(** X4 on the same document: g1 and g2 both name g3, and g1 comes first. *)
Lemma parent_of_g3_in_sharedDoc :
  firstParent sharedDoc_decoded "g3" = Some "g1"
  /\ parentMap (snd (parseData sharedUnmarshal sharedDoc loadedReceiver)) !! "g3"
     = firstParent sharedDoc_decoded "g3".
Proof.
  split; [reflexivity|].
  apply (parsed_parentMap_is_the_first_parent sharedUnmarshal sharedDoc loadedReceiver
           sharedDoc_decoded sharedDoc_meta sharedDoc_hostvars).
  - by_evaluation.
  - reflexivity.
  - reflexivity.
Defined.

(** X5 on the same document, for the record of g3. *)
Lemma ParentID_of_g3_in_sharedDoc :
  let y' := snd (parseData sharedUnmarshal sharedDoc loadedReceiver) in
  mkGroup "g3" "g1" [] ∈ groups y'
  /\ parentMap y' !! "g3" = Some "g1"
  /\ firstParent sharedDoc_decoded "g3" = Some "g1".
Proof.
  assert (Hin : mkGroup "g3" "g1" []
                ∈ groups (snd (parseData sharedUnmarshal sharedDoc loadedReceiver))).
  { assert (Hgroups : groups (snd (parseData sharedUnmarshal sharedDoc loadedReceiver))
             = [mkGroup "g1" "" [mkHost "a.x" "g1" "dc1"];
                mkGroup "g2" "" [mkHost "a.x" "g2" "dc1"]; mkGroup "g3" "g1" []])
      by by_evaluation.
    rewrite Hgroups. do 2 apply list_elem_of_further. apply list_elem_of_here. }
  split; [exact Hin|].
  apply (parsed_ParentID_is_empty_or_the_first_parent sharedUnmarshal sharedDoc
           loadedReceiver sharedDoc_decoded sharedDoc_meta sharedDoc_hostvars
           ltac:(by_evaluation) eq_refl eq_refl (mkGroup "g3" "g1" []) Hin).
  discriminate.
Defined.

(** X6 on scenario A, for an empty receiver and one that holds a load. *)
Lemma parse_of_scenarioA_forgets_the_collections :
  sameSettings sampleReceiver loadedReceiver
  /\ parseData sampleUnmarshal scenarioA loadedReceiver
     = parseData sampleUnmarshal scenarioA sampleReceiver.
Proof.
  assert (Hsame : sameSettings sampleReceiver loadedReceiver) by (repeat split).
  split; [exact Hsame|].
  apply (parseData_forgets_the_collections sampleUnmarshal scenarioA sampleReceiver
           loadedReceiver scenarioA_g1_first); [by_evaluation|exact Hsame].
Defined.

(** X8 on scenario A written in a world without faults. *)
Lemma saveCache_of_scenarioA_then_loadLocal :
  let w1 := snd (saveCache scenarioA sampleReceiver bareWorld) in
  files w1 !! cacheFilename sampleReceiver = Some (mkFile (clock bareWorld) scenarioA)
  /\ (readFault bareWorld (cacheFilename sampleReceiver) = None ->
      loadLocal sampleUnmarshal sampleReceiver w1
      = (fst (parseData sampleUnmarshal scenarioA sampleReceiver),
         snd (parseData sampleUnmarshal scenarioA sampleReceiver),
         record (EvReadFile (cacheFilename sampleReceiver)) w1)).
Proof.
  apply (saveCache_then_loadLocal sampleUnmarshal scenarioA sampleReceiver bareWorld).
  by_evaluation.
Defined.


(** X10 without a network, once without and once with a cache file. *)
Lemma Reload_offline_on_samples :
  (files (snd (Reload sampleUnmarshal loadedReceiver bareWorld)) = files bareWorld
   /\ fst (Reload sampleUnmarshal loadedReceiver bareWorld)
      = (Some (PathError "open" sampleCacheFile ENOENT), loadedReceiver))
  /\ (files (snd (Reload sampleUnmarshal loadedReceiver (offlineWorld 0)))
      = files (offlineWorld 0)
      /\ fst (Reload sampleUnmarshal loadedReceiver (offlineWorld 0))
         = parseData sampleUnmarshal scenarioA loadedReceiver).
Proof.
  split.
  - apply (Reload_offline_serves_the_cache_or_fails sampleUnmarshal loadedReceiver bareWorld).
    apply (fails_transport _ _ (LibError "net/http" "connection refused")). reflexivity.
  - apply (Reload_offline_serves_the_cache_or_fails sampleUnmarshal loadedReceiver
             (offlineWorld 0)).
    apply (fails_transport _ _ (LibError "net/http" "connection refused")). reflexivity.
Defined.


(** X14 for a configuration with both options, next to a fresh cache file. *)
Lemma New_on_a_full_configuration :
  let cfg := sampleConfig [("work_groups", "web , db"); ("url", "http://inventory")] in
  let r := New sampleUnmarshal cfg (offlineWorld 9000) in
  let y := match fst r with inr y => y | inl _ => sampleReceiver end in
  r = (inr y, snd r)
  /\ exists wgString url,
       Options (BackendCfg cfg) !! "work_groups" = Some wgString /\ wgString <> ""
       /\ Options (BackendCfg cfg) !! "url" = Some url
       /\ workgroupNames y = splitExpr_Split wgString /\ apiURL y = url
       /\ cacheTTL y = CacheTTL cfg /\ cacheDir y = CacheDir cfg
       /\ workgroups y = [].
Proof.
  cbv zeta.
  assert (Hnew : New sampleUnmarshal
                   (sampleConfig [("work_groups", "web , db"); ("url", "http://inventory")])
                   (offlineWorld 9000)
                 = (inr match fst (New sampleUnmarshal
                          (sampleConfig [("work_groups", "web , db");
                                         ("url", "http://inventory")])
                          (offlineWorld 9000)) with
                        | inr y => y
                        | inl _ => sampleReceiver
                        end,
                    snd (New sampleUnmarshal
                          (sampleConfig [("work_groups", "web , db");
                                         ("url", "http://inventory")])
                          (offlineWorld 9000))))
    by by_evaluation.
  split; [exact Hnew|].
  exact (New_returns_the_configured_backend sampleUnmarshal _ _ _ _ Hnew).
Defined.

(** X15 without a cache file, and with one written 10000 time units ago. *)
Lemma Load_reloads_on_samples :
  Load sampleUnmarshal sampleReceiver bareWorld
    = Reload sampleUnmarshal sampleReceiver
        (record (EvStat (cacheFilename sampleReceiver)) bareWorld)
  /\ Load sampleUnmarshal sampleReceiver (offlineWorld 0)
     = Reload sampleUnmarshal sampleReceiver
         (record (EvStat (cacheFilename sampleReceiver)) (offlineWorld 0)).
Proof.
  split.
  - apply (Load_of_absent_or_stale_cache_reloads sampleUnmarshal sampleReceiver bareWorld);
      [reflexivity|]. vm_compute. exact I.
  - apply (Load_of_absent_or_stale_cache_reloads sampleUnmarshal sampleReceiver
             (offlineWorld 0)); [reflexivity|]. vm_compute. reflexivity.
Defined.

(** X16 on the option string of the samples. *)
Lemma splitExpr_Split_of_web_db :
  strings_Join ["web"; "db"] (" " ++ "," ++ "  ") = "web ,  db"
  /\ splitExpr_Split (strings_Join ["web"; "db"] (" " ++ "," ++ "  ")) = ["web"; "db"].
Proof.
  split; [reflexivity|].
  apply (splitExpr_Split_of_joined_names " " "  " ["web"; "db"]).
  - reflexivity.
  - reflexivity.
  - repeat constructor.
  - discriminate.
Defined.
